(** * ml-pipeline-tool: the pipeline engine (ml_engine.py) and the
    prediction script (predict.py)

  A shallow embedding of the two Python scripts of [ml-backend]:

  - [Dict]: Python's insertion-ordered [dict] and [defaultdict(list)],
    as association lists (iteration order is observable in
    [build_execution_order], so an unordered map would lose it);
  - [Sequencer]: [build_execution_order], Kahn's algorithm with a FIFO
    ready queue, over any id type with decidable equality;
  - [Paths], [FS]: [os.path.join], [str.lower], [str.endswith] and the
    part of the file system the scripts observe;
  - [Engine]: [run_pipeline] and [main] of ml_engine.py;
  - [Predict]: [main] of predict.py.

  The learning primitives (PIL, numpy, scikit-learn, joblib) are outside
  the repository; they enter as Section variables. *)

From Stdlib Require Import List ZArith String Ascii Bool Lia Arith Relations.
Import ListNotations.



(* ================================================================== *)
(** ** Insertion-ordered dictionaries *)

Module Dict.
Section Dict.
Context {K V : Type}.
Variable K_eq_dec : forall x y : K, {x = y} + {x <> y}.

(** A Python [dict]: keys in insertion order, each key once. *)
Definition dict := list (K * V).

(** [d.get(k)] / the lookup behind [d[k]] ([None] is Python's KeyError) *)
Fixpoint get (k : K) (d : dict) : option V :=
  match d with
  | [] => None
  | (k', v) :: d' => if K_eq_dec k k' then Some v else get k d'
  end.

(** [d[k] = v]: an existing key keeps its position, a new key goes last. *)
Fixpoint set (k : K) (v : V) (d : dict) : dict :=
  match d with
  | [] => [(k, v)]
  | (k', v') :: d' =>
      if K_eq_dec k k' then (k', v) :: d' else (k', v') :: set k v d'
  end.

(** iteration order of [d] (and of [d.items()]) *)
Definition keys (d : dict) : list K := map fst d.

End Dict.
End Dict.

(* ================================================================== *)
(** ** The Topological Sequencer: [build_execution_order] *)

Module Sequencer.
Section Sequencer.
Context {K : Type}.
Variable K_eq_dec : forall x y : K, {x = y} + {x <> y}.

(** A pipeline node [{id, data: {label}}] and an edge [{source, target}]. *)
Record node := { id : K; label : string }.
Record edge := { source : K; target : K }.

(** What a call can do: return, or raise [KeyError].  [Diverge] stands
    for a [while] loop that outlives its iteration bound; the function
    is shown never to produce it ([while_queue_enough]). *)
Inductive outcome (A : Type) : Type :=
| Ok (a : A)
| KeyError (k : K)
| Diverge.
Arguments Ok {A} a.
Arguments KeyError {A} k.
Arguments Diverge {A}.

Definition bind {A B} (m : outcome A) (f : A -> outcome B) : outcome B :=
  match m with
  | Ok a => f a
  | KeyError k => KeyError k
  | Diverge => Diverge
  end.

Definition adjacency := Dict.dict (K:=K) (V:=list K).
Definition degrees := Dict.dict (K:=K) (V:=Z).

(** [defaultdict(list)], freshly made *)
Definition defaultdict_list : adjacency := [].

(** [graph[k]] on a [defaultdict(list)]: a missing key is first bound
    to a fresh empty list. *)
Definition dd_getitem (k : K) (g : adjacency) : list K * adjacency :=
  match Dict.get K_eq_dec k g with
  | Some l => (l, g)
  | None => ([], Dict.set K_eq_dec k [] g)
  end.

(** [graph[s].append(t)] *)
Definition dd_append (s t : K) (g : adjacency) : adjacency :=
  let (l, g1) := dd_getitem s g in Dict.set K_eq_dec s (l ++ [t]) g1.

(** [in_degree = {node['id']: 0 for node in nodes}] *)
Definition init_in_degree (nodes : list node) : degrees :=
  fold_left (fun d n => Dict.set K_eq_dec (id n) 0%Z d) nodes [].

(** The body of [for edge in edges]. *)
Definition add_edge (e : edge) (st : adjacency * degrees)
  : outcome (adjacency * degrees) :=
  let (g, deg) := st in
  let g' := dd_append (source e) (target e) g in
  match Dict.get K_eq_dec (target e) deg with
  | None => KeyError (target e)
  | Some d => Ok (g', Dict.set K_eq_dec (target e) (d + 1)%Z deg)
  end.

Fixpoint add_edges (edges : list edge) (st : adjacency * degrees)
  : outcome (adjacency * degrees) :=
  match edges with
  | [] => Ok st
  | e :: rest => bind (add_edge e st) (add_edges rest)
  end.

(** [deque([nid for nid, deg in in_degree.items() if deg == 0])] *)
Definition initial_queue (deg : degrees) : list K :=
  map fst (filter (fun kv => Z.eqb (snd kv) 0) deg).

(** [for neighbor in graph[nid]: in_degree[neighbor] -= 1; if ... == 0:
    queue.append(neighbor)] *)
Fixpoint visit_neighbors (nbrs : list K) (deg : degrees) (queue : list K)
  : outcome (degrees * list K) :=
  match nbrs with
  | [] => Ok (deg, queue)
  | nb :: rest =>
      match Dict.get K_eq_dec nb deg with
      | None => KeyError nb
      | Some d =>
          let deg' := Dict.set K_eq_dec nb (d - 1)%Z deg in
          let queue' := if Z.eqb (d - 1) 0 then queue ++ [nb] else queue in
          visit_neighbors rest deg' queue'
      end
  end.

Record state := {
  graph : adjacency;
  in_degree : degrees;
  queue : list K;
  order : list K
}.

(** [while queue: nid = queue.popleft(); order.append(nid); ...] *)
Fixpoint while_queue (fuel : nat) (st : state) : outcome state :=
  match queue st with
  | [] => Ok st
  | nid :: q =>
      match fuel with
      | O => Diverge
      | S fuel' =>
          let (nbrs, g') := dd_getitem nid (graph st) in
          bind (visit_neighbors nbrs (in_degree st) q)
               (fun dq => while_queue fuel'
                  {| graph := g'; in_degree := fst dq; queue := snd dq;
                     order := order st ++ [nid] |})
      end
  end.

Definition build_execution_order (nodes : list node) (edges : list edge)
  : outcome (list K) :=
  bind (add_edges edges (defaultdict_list, init_in_degree nodes))
       (fun gd =>
          bind (while_queue (List.length nodes)
                  {| graph := fst gd; in_degree := snd gd;
                     queue := initial_queue (snd gd); order := [] |})
               (fun st => Ok (order st))).

End Sequencer.
Arguments Ok {K A} a.
Arguments KeyError {K A} k.
Arguments Diverge {K A}.
End Sequencer.

(* ================================================================== *)
(** ** Vocabulary for stating properties of the Sequencer *)

Module Graph.
Import Sequencer.
Section Graph.
Context {K : Type}.
Variable K_eq_dec : forall x y : K, {x = y} + {x <> y}.

(** the declared node ids, in payload order *)
Definition ids (nodes : list (node (K:=K))) : list K := map id nodes.

(** targets of the edges leaving [k], in payload order *)
Definition successors (edges : list (edge (K:=K))) (k : K) : list K :=
  map target (filter (fun e => if K_eq_dec (source e) k then true else false) edges).

(** number of edges into [v] whose source is not in [done] *)
Definition pending_in (edges : list (edge (K:=K))) (done : list K) (v : K) : nat :=
  List.length
    (filter (fun e => if K_eq_dec (target e) v
                      then if in_dec K_eq_dec (source e) done then false else true
                      else false) edges).

(** what [graph[k]] evaluates to *)
Definition dd_lookup (k : K) (g : adjacency (K:=K)) : list K :=
  match Dict.get K_eq_dec k g with Some l => l | None => [] end.

(** [s] occurs at a position strictly before an occurrence of [t] *)
Definition before (s t : K) (l : list K) : Prop :=
  exists l1 l2 l3, l = l1 ++ s :: l2 ++ t :: l3.

Definition edge_rel (edges : list (edge (K:=K))) : relation K :=
  fun s t => In {| source := s; target := t |} edges.

(** no node reaches itself along one or more edges *)
Definition acyclic (edges : list (edge (K:=K))) : Prop :=
  forall x, ~ clos_trans K (edge_rel edges) x x.

(** [s] occurs in [l] before a place where [t] occurs *)
Definition precedes (s t : K) (l : list K) : Prop :=
  exists l1 l2, l = l1 ++ t :: l2 /\ In s l1.

Set Implicit Arguments.

(** The loop invariant of [while queue].  [pend] lists the neighbours the
    inner [for] loop has still to visit ([[]] between iterations), [ord]
    is [order] and [q] is [queue]. *)
Record invariant (nodes : list (node (K:=K))) (edges : list (edge (K:=K)))
  (pend : list K) (deg : degrees (K:=K)) (q ord : list K) : Prop := {
  inv_keys : forall v, In v (Dict.keys deg) <-> In v (ids nodes);
  inv_pend : forall v, In v pend -> In v (ids nodes);
  inv_nodup : NoDup (ord ++ q);
  inv_count : forall v d, Dict.get K_eq_dec v deg = Some d ->
      d = Z.of_nat (pending_in edges ord v + count_occ K_eq_dec pend v);
  inv_ready : forall v, In v (ord ++ q) <-> Dict.get K_eq_dec v deg = Some 0%Z;
  inv_prec : forall e, In e edges -> In (target e) ord ->
      precedes (source e) (target e) ord
}.

Unset Implicit Arguments.

(** every edge endpoint is a declared node id *)
Definition well_formed (nodes : list (node (K:=K))) (edges : list (edge (K:=K))) : Prop :=
  forall e, In e edges -> In (source e) (ids nodes) /\ In (target e) (ids nodes).

(** the distinct elements of [l], each at the place of its first occurrence
    (the key order of a dict filled from [l]) *)
Fixpoint first_occurrences (seen l : list K) : list K :=
  match l with
  | [] => []
  | x :: r => if in_dec K_eq_dec x seen then first_occurrences seen r
              else x :: first_occurrences (x :: seen) r
  end.

(** index of the first occurrence of [x] in [l] ([length l] when absent) *)
Fixpoint position (x : K) (l : list K) : nat :=
  match l with
  | [] => 0
  | y :: r => if K_eq_dec x y then 0 else S (position x r)
  end.

(** the ids no edge points to, in the key order of [in_degree] *)
Definition ready_initially (nodes : list (node (K:=K))) (edges : list (edge (K:=K))) : list K :=
  filter (fun v => Nat.eqb (pending_in edges [] v) 0)
         (first_occurrences [] (ids nodes)).

End Graph.
End Graph.

(* ================================================================== *)
(** ** Strings and paths: [str.lower], [str.endswith], [os.path.join] *)

Module Paths.

(** [str.lower] on the ASCII letters.  (On other code points Python's
    [lower] never produces one of the letters of the extensions below,
    so the test of [run_pipeline] is the same.) *)
Definition lower_ascii (c : ascii) : ascii :=
  let n := nat_of_ascii c in
  if (65 <=? n) && (n <=? 90) then ascii_of_nat (n + 32) else c.

Fixpoint lower (s : string) : string :=
  match s with
  | EmptyString => EmptyString
  | String c r => String (lower_ascii c) (lower r)
  end.

(** [s.startswith(p)] *)
Definition startswith (s p : string) : bool := String.prefix p s.

(** [s.endswith(suffix)] *)
Definition endswith (s suffix : string) : bool :=
  let n := String.length s in
  let m := String.length suffix in
  if m <=? n then String.eqb (String.substring (n - m) m s) suffix else false.

(** [s.endswith((suf1, suf2, ...))] *)
Definition endswith_any (s : string) (suffixes : list string) : bool :=
  existsb (endswith s) suffixes.

(** the characters [repr] treats specially *)
Definition backslash : ascii := ascii_of_nat 92.
Definition single_quote : ascii := ascii_of_nat 39.
Definition double_quote : ascii := ascii_of_nat 34.

Fixpoint contains_char (c : ascii) (s : string) : bool :=
  match s with
  | EmptyString => false
  | String x r => Ascii.eqb x c || contains_char c r
  end.

Definition hex_digit (n : nat) : ascii :=
  nth n ["0"; "1"; "2"; "3"; "4"; "5"; "6"; "7"; "8"; "9";
         "a"; "b"; "c"; "d"; "e"; "f"]%char "0"%char.

(** what [repr] writes for one character inside the quotes *)
Definition repr_char (quote c : ascii) : string :=
  let n := nat_of_ascii c in
  if Ascii.eqb c quote || Ascii.eqb c backslash then String backslash (String c EmptyString)
  else if n =? 9 then String backslash "t"
  else if n =? 10 then String backslash "n"
  else if n =? 13 then String backslash "r"
  else if (n <? 32) || (n =? 127) then
    String backslash (String "x" (String (hex_digit (n / 16))
                                    (String (hex_digit (n mod 16)) EmptyString)))
  else String c EmptyString.

Fixpoint repr_body (quote : ascii) (s : string) : string :=
  match s with
  | EmptyString => EmptyString
  | String c r => (repr_char quote c ++ repr_body quote r)%string
  end.

(** [repr(s)] of a [str]: single quotes, unless [s] holds a single quote
    and no double quote; the quote, the backslash and the control
    characters are escaped.  (Bytes above 127 stand for printable
    non-ASCII characters, which [repr] copies.) *)
Definition repr_str (s : string) : string :=
  let quote := if contains_char single_quote s && negb (contains_char double_quote s)
               then double_quote else single_quote in
  String quote (repr_body quote s ++ String quote EmptyString).

(** one round of the loop of [posixpath.join] *)
Definition join2 (path b : string) : string :=
  if startswith b "/" then b
  else if String.eqb path "" || endswith path "/" then (path ++ b)%string
  else (path ++ "/" ++ b)%string.

(** [os.path.join(a, *p)] *)
Definition join (a : string) (p : list string) : string := fold_left join2 p a.

End Paths.

(* ================================================================== *)
(** ** The file system, as far as the scripts look at it *)

Module FS.

(** What a path names.  File contents are not modelled: the scripts only
    hand paths to PIL and joblib. *)
Inductive fs_node : Type :=
| RegularFile
| Directory (entries : list string).

(** path -> node *)
Definition filesystem := Dict.dict (K:=string) (V:=fs_node).

(** [os.path.exists] *)
Definition exists_ (fs : filesystem) (p : string) : bool :=
  match Dict.get string_dec p fs with Some _ => true | None => false end.

(** [os.path.isdir] *)
Definition isdir (fs : filesystem) (p : string) : bool :=
  match Dict.get string_dec p fs with Some (Directory _) => true | _ => false end.

(** [os.listdir]: the entry names, in the order the system lists them;
    [None] when [p] is not a directory (an [OSError] in Python). *)
Definition listdir (fs : filesystem) (p : string) : option (list string) :=
  match Dict.get string_dec p fs with Some (Directory l) => Some l | _ => None end.

(** the effect of [joblib.dump(obj, p)] on what exists: [p] names a file *)
Definition dump (fs : filesystem) (p : string) : filesystem :=
  Dict.set string_dec p RegularFile fs.

(** The [OSError]s the path map can give rise to. *)
Inductive oserror : Type :=
| ENOENT     (* [FileNotFoundError] *)
| ENOTDIR    (* [NotADirectoryError] *)
| EISDIR.    (* [IsADirectoryError] *)

(** the text before the file name in [str(e)] *)
Definition strerror (k : oserror) : string :=
  match k with
  | ENOENT => "[Errno 2] No such file or directory"
  | ENOTDIR => "[Errno 20] Not a directory"
  | EISDIR => "[Errno 21] Is a directory"
  end.

(** what [os.listdir(p)] raises when [p] is not a directory *)
Definition listdir_error (fs : filesystem) (p : string) : oserror :=
  match Dict.get string_dec p fs with
  | None => ENOENT
  | Some _ => ENOTDIR
  end.

(** [open(p, 'wb')], as [joblib.dump] does it: it cannot open a
    directory ([IsADirectoryError]); otherwise [p] names a file
    afterwards.  (Its parent is the directory of the running script,
    which exists.) *)
Definition try_dump (fs : filesystem) (p : string) : option filesystem :=
  match Dict.get string_dec p fs with
  | Some (Directory _) => None
  | _ => Some (dump fs p)
  end.

End FS.

(* ================================================================== *)
(** ** Effects: a world that is read and changed, and exceptions *)

Module Effect.

(** Exceptions that can reach the [except Exception] of a [main]. *)
Inductive exn : Type :=
| ExKeyError (key : string)     (* [KeyError], the key as [repr] prints it *)
| ExOSError (kind : FS.oserror) (filename : string)
                                (* [OSError] of [os.listdir] or of [open] *)
| ExJSON (msg : string)         (* [json.loads], or a payload of the wrong shape *)
| ExRuntime (msg : string)      (* [RuntimeError(msg)] *)
| ExLibrary (msg : string)      (* raised inside scikit-learn or joblib *)
| ExLoop.                       (* stands for [Sequencer.Diverge] *)

(** [str(e)] *)
Definition str_exn (e : exn) : string :=
  match e with
  | ExKeyError k => k
  | ExOSError k p => (FS.strerror k ++ ": " ++ Paths.repr_str p)%string
  | ExJSON m => m
  | ExRuntime m => m
  | ExLibrary m => m
  | ExLoop => ""
  end.

Section Effect.
Variable W : Type.

(** Computations over a world [W]: they return or raise. *)
Definition M (A : Type) : Type := W -> (exn + A) * W.

Definition ret {A} (a : A) : M A := fun w => (inr a, w).
Definition raise {A} (e : exn) : M A := fun w => (inl e, w).
Definition mbind {A B} (m : M A) (f : A -> M B) : M B :=
  fun w => match m w with
           | (inr a, w') => f a w'
           | (inl e, w') => (inl e, w')
           end.
(** [try: m except Exception as e: h e] *)
Definition try_except {A} (m : M A) (h : exn -> M A) : M A :=
  fun w => match m w with
           | (inr a, w') => (inr a, w')
           | (inl e, w') => h e w'
           end.
Definition lift {A} (r : exn + A) : M A :=
  match r with inl e => raise e | inr a => ret a end.
Definition get_world : M W := fun w => (inr w, w).
Definition modify (f : W -> W) : M unit := fun w => (inr tt, f w).

End Effect.
Arguments ret {W A} a.
Arguments raise {W A} e.
Arguments mbind {W A B} m f.
Arguments try_except {W A} m h.
Arguments lift {W A} r.
Arguments get_world {W}.
Arguments modify {W} f.

Notation "x <- m ;; k" := (mbind m (fun x => k))
  (at level 61, m at next level, k at level 200, right associativity, only parsing).
Notation "m ;; k" := (mbind m (fun _ => k))
  (at level 61, k at level 200, right associativity, only parsing).

End Effect.

(* ================================================================== *)
(** ** ml_engine.py *)

Module Engine.
Import Paths FS Effect.

(** The externally supplied primitives: PIL and numpy behind
    [extract_features], scikit-learn behind the training steps, and
    [traceback.format_exc]. *)
Record library : Type := {
  Features : Type;
  Encoder : Type;
  Split : Type;
  Model : Type;
  Accuracy : Type;
  (* [np.array(Image.open(p).convert("L").resize((64, 64))).flatten()],
     or the message of the exception it raised *)
  open_image : string -> Features + string;
  (* [le = LabelEncoder(); le.fit_transform(y)] *)
  fit_transform : list string -> exn + (Encoder * list Z);
  (* [train_test_split(X, y_encoded, test_size=0.2, random_state=42)] *)
  train_test_split : list Features -> list Z -> exn + Split;
  (* [RandomForestClassifier(n_estimators=100, random_state=42).fit(...)] *)
  fit : Split -> exn + Model;
  (* [accuracy_score(y_test, clf.predict(X_test))] *)
  score : Model -> Split -> exn + Accuracy;
  format_exc : exn -> string
}.

Section Engine.
Context {K : Type}.
Variable K_eq_dec : forall x y : K, {x = y} + {x <> y}.
Variable repr : K -> string.
Variable L : library.

(** A line on stderr (the progress channel), by the [print] that wrote it. *)
Inductive progress : Type :=
| Starting
| ExecutionOrder (exec_order : list K)
| IdToLabel (id_to_label : Dict.dict (K:=K) (V:=string))
| Visiting (label : string)
| ErrorProcessingImage (image_path msg : string)
| EncodingLabels
| DatasetSize (n : nat)
| Splitting
| Training
| Evaluating
| Saved (model_path encoder_path : string).

(** A JSON record on stdout (the result channel), or returned. *)
Inductive record : Type :=
| Success (message model : string) (accuracy : Accuracy L)
          (stagesExecuted : list string) (downloadLink : string)
| Error (error : string) (trace : option string).

Record world : Type := {
  fs : filesystem;
  stdout : list record;
  stderr : list progress
}.

Definition M := Effect.M world.

(** the world after the lines [log] have gone to stderr *)
Definition logged (w : world) (log : list progress) : world :=
  {| fs := fs w; stdout := stdout w; stderr := stderr w ++ log |}.

(** [print(..., file=sys.stderr, flush=True)] *)
Definition print_stderr (p : progress) : M unit :=
  modify (fun w => logged w [p]).
(** [print(json.dumps(r))] / [sys.stdout.write(json.dumps(r) + "\n")] *)
Definition print_stdout (r : record) : M unit :=
  modify (fun w => {| fs := fs w; stdout := stdout w ++ [r]; stderr := stderr w |}).
(** [joblib.dump(obj, path)] *)
Definition joblib_dump (path : string) : M unit :=
  fun w => match try_dump (fs w) path with
           | Some fs' => (inr tt, {| fs := fs'; stdout := stdout w; stderr := stderr w |})
           | None => (inl (ExOSError EISDIR path), w)
           end.
Definition get_fs : M filesystem := w <- get_world ;; ret (fs w).

(** [extract_features(image_path)] *)
Definition extract_features (image_path : string) : M (option (Features L)) :=
  match open_image L image_path with
  | inl features => ret (Some features)
  | inr e => mbind (print_stderr (ErrorProcessingImage image_path e))
                   (fun _ => ret None)
  end.

Definition image_extensions : list string := [".png"; ".jpg"; ".jpeg"; ".bmp"]%string.

(** [for file in os.listdir(class_dir): if file.lower().endswith(...): ...] *)
Fixpoint scan_class (class_dir label : string) (files : list string)
  (image_paths labels : list string) : list string * list string :=
  match files with
  | [] => (image_paths, labels)
  | file :: rest =>
      if endswith_any (lower file) image_extensions
      then scan_class class_dir label rest
             (image_paths ++ [join class_dir [file]]) (labels ++ [label])
      else scan_class class_dir label rest image_paths labels
  end.

(** [for label in os.listdir(image_dir): ...] *)
Fixpoint scan_root (fs0 : filesystem) (image_dir : string) (entries : list string)
  (image_paths labels : list string) : exn + (list string * list string) :=
  match entries with
  | [] => inr (image_paths, labels)
  | label :: rest =>
      let class_dir := join image_dir [label] in
      if isdir fs0 class_dir then
        match listdir fs0 class_dir with
        | None => inl (ExOSError (listdir_error fs0 class_dir) class_dir)
        | Some files =>
            let (ps, ls) := scan_class class_dir label files image_paths labels in
            scan_root fs0 image_dir rest ps ls
        end
      else scan_root fs0 image_dir rest image_paths labels
  end.

(** lines 56-63 of [run_pipeline]: the Dataset Loader *)
Definition load_dataset (fs0 : filesystem) (image_dir : string)
  : exn + (list string * list string) :=
  match listdir fs0 image_dir with
  | None => inl (ExOSError (listdir_error fs0 image_dir) image_dir)
  | Some entries => scan_root fs0 image_dir entries [] []
  end.

(** [{node['id']: node['data']['label'] for node in nodes}] *)
Definition id_to_label_of (nodes : list (Sequencer.node (K:=K)))
  : Dict.dict (K:=K) (V:=string) :=
  fold_left (fun d n => Dict.set K_eq_dec (Sequencer.id n) (Sequencer.label n) d)
            nodes [].

(** [id_to_label.get(node_id, "Unknown")] *)
Definition label_of (id_to_label : Dict.dict (K:=K) (V:=string)) (node_id : K)
  : string :=
  match Dict.get K_eq_dec node_id id_to_label with
  | Some l => l
  | None => "Unknown"%string
  end.

(** lines 77-83: [for node_id in exec_order: ... break] *)
Fixpoint walk_stages (id_to_label : Dict.dict (K:=K) (V:=string))
  (exec_order : list K) (stages : list string) : M (list string * bool) :=
  match exec_order with
  | [] => ret (stages, false)
  | node_id :: rest =>
      let label := label_of id_to_label node_id in
      print_stderr (Visiting label) ;;
      if String.eqb label "Model Training"
      then ret (stages ++ [label], true)
      else walk_stages id_to_label rest (stages ++ [label])
  end.

(** lines 89-93: [for path, label in zip(image_paths, labels): ...] *)
Fixpoint extract_all (samples : list (string * string))
  (X : list (Features L)) (y : list string) : M (list (Features L) * list string) :=
  match samples with
  | [] => ret (X, y)
  | (path, label) :: rest =>
      mbind (extract_features path) (fun features =>
      match features with
      | Some f => extract_all rest (X ++ [f]) (y ++ [label])
      | None => extract_all rest X y
      end)
  end.

Definition lift_outcome (o : Sequencer.outcome (K:=K) (list K)) : M (list K) :=
  match o with
  | Sequencer.Ok ord => ret ord
  | Sequencer.KeyError k => raise (ExKeyError (repr k))
  | Sequencer.Diverge => raise ExLoop
  end.

Definition is_empty {A} (l : list A) : bool :=
  match l with [] => true | _ => false end.

(** [run_pipeline(image_dir, nodes, edges)], in the directory
    [project_root] of the script.  The value is what the function
    returns: an error record, or [None] after the success record has
    been written to stdout. *)
Definition run_pipeline (project_root image_dir : string)
  (nodes : list (Sequencer.node (K:=K))) (edges : list (Sequencer.edge (K:=K)))
  : M (option record) :=
  print_stderr Starting ;;
  fs0 <- get_fs ;;
  dataset <- lift (load_dataset fs0 image_dir) ;;
  let (image_paths, labels) := dataset in
  if is_empty image_paths then
    ret (Some (Error "No valid images found." None))
  else
  let id_to_label := id_to_label_of nodes in
  exec_order <- lift_outcome (Sequencer.build_execution_order K_eq_dec nodes edges) ;;
  print_stderr (ExecutionOrder exec_order) ;;
  print_stderr (IdToLabel id_to_label) ;;
  walked <- walk_stages id_to_label exec_order [] ;;
  let (stages, model_training_reached) := walked in
  if negb model_training_reached then
    ret (Some (Error "Model Training node not connected in the pipeline." None))
  else
  Xy <- extract_all (combine image_paths labels) [] [] ;;
  let (X, y) := Xy in
  if is_empty X || is_empty y then
    ret (Some (Error "Feature extraction failed or no images were processed." None))
  else
  print_stderr EncodingLabels ;;
  le_y <- lift (fit_transform L y) ;;
  let (le, y_encoded) := le_y in
  print_stderr (DatasetSize (List.length X)) ;;
  print_stderr Splitting ;;
  split <- lift (train_test_split L X y_encoded) ;;
  print_stderr Training ;;
  clf <- lift (fit L split) ;;
  print_stderr Evaluating ;;
  accuracy <- lift (score L clf split) ;;
  let model_path := join project_root ["model.pkl"%string] in
  let encoder_path := join project_root ["label_encoder.pkl"%string] in
  joblib_dump model_path ;;
  joblib_dump encoder_path ;;
  print_stderr (Saved model_path encoder_path) ;;
  let result := Success "Pipeline executed and model trained successfully!"
                        "RandomForestClassifier" accuracy stages
                        "/uploads/model.pkl" in
  print_stdout result ;;
  ret None.

(** What [json.loads(sys.stdin.read())] gave: an exception, or a dict
    with the keys it has. *)
Record payload : Type := {
  p_nodes : option (list (Sequencer.node (K:=K)));
  p_edges : option (list (Sequencer.edge (K:=K)));
  p_imageFolder : option string
}.

Definition default {A} (o : option A) (d : A) : A :=
  match o with Some a => a | None => d end.

(** [main()] *)
Definition main (project_root : string) (input : exn + payload) : M unit :=
  try_except
    (payload <- lift input ;;
     let nodes := default (p_nodes payload) [] in
     let edges := default (p_edges payload) [] in
     let image_folder := default (p_imageFolder payload) ""%string in
     fs0 <- get_fs ;;
     if negb (exists_ fs0 image_folder) then
       print_stdout (Error "Extracted image folder not found." None)
     else
       run_pipeline project_root image_folder nodes edges ;;
       ret tt)
    (fun e =>
       print_stdout (Error ("Unexpected error occurred: " ++ str_exn e)
                           (Some (format_exc L e)))).

End Engine.
Arguments fs {K L} w.
Arguments stdout {K L} w.
Arguments stderr {K L} w.
Arguments logged {K L} w log.
Arguments Success {L} message model accuracy stagesExecuted downloadLink.
Arguments Error {L} error trace.
End Engine.

(* ================================================================== *)
(** ** predict.py *)

Module Predict.
Import Paths FS Effect.

(** PIL and numpy behind [preprocess_image], joblib and the loaded
    scikit-learn objects, and [traceback.format_exc]. *)
Record library : Type := {
  Features : Type;
  Model : Type;
  Encoder : Type;
  (* [np.array(Image.open(p).convert('L').resize((64, 64))).flatten().reshape(1, -1)],
     or the message of the exception it raised *)
  open_image : string -> Features + string;
  (* [joblib.load(model_path)], [joblib.load(encoder_path)] *)
  load_model : string -> exn + Model;
  load_encoder : string -> exn + Encoder;
  (* [model.predict(features)[0]] *)
  predict : Model -> Features -> exn + Z;
  (* [label_encoder.inverse_transform([prediction])[0]] *)
  inverse_transform : Encoder -> Z -> exn + string;
  format_exc : exn -> string
}.

(** A line on stderr, by the [print] that wrote it. *)
Inductive progress : Type :=
| StartingPrediction
| Preprocessing
| Preprocessed
| ImagePathReceived (image_path : string)
| LoadingModel (model_path : string)
| ModelLoaded
| LoadingEncoder (encoder_path : string)
| EncoderLoaded
| PredictionCompleted.

(** A JSON record on stdout. *)
Inductive response : Type :=
| Prediction (prediction : string)
| MissingImage (error : string) (imagePath : option string)
| Failure (error : string) (trace : option string).

Record world : Type := {
  fs : filesystem;
  stdout : list response;
  stderr : list progress
}.

Section Predict.
Variable L : library.

Definition M := Effect.M world.

Definition print_stderr (p : progress) : M unit :=
  modify (fun w => {| fs := fs w; stdout := stdout w; stderr := stderr w ++ [p] |}).
Definition write_stdout (r : response) : M unit :=
  modify (fun w => {| fs := fs w; stdout := stdout w ++ [r]; stderr := stderr w |}).
Definition get_fs : M filesystem := w <- get_world ;; ret (fs w).

(** [preprocess_image(path)] *)
Definition preprocess_image (path : string) : M (Features L) :=
  print_stderr Preprocessing ;;
  match open_image L path with
  | inl arr => print_stderr Preprocessed ;; ret arr
  | inr e => raise (ExRuntime ("Image preprocessing failed: " ++ e))
  end.

(** the two artifact paths of lines 39-41 *)
Definition model_path (base_dir : string) : string :=
  join base_dir ["uploads"; "model.pkl"]%string.
Definition encoder_path (base_dir : string) : string :=
  join base_dir ["uploads"; "label_encoder.pkl"]%string.

(** [not image_path]: the key is absent ([None]) or the string is empty *)
Definition falsy (image_path : option string) : bool :=
  match image_path with
  | None => true
  | Some p => String.eqb p ""
  end.

(** [main()], in the directory [base_dir] of the script; [input] is what
    [json.loads(sys.stdin.read()).get('imagePath')] gave. *)
Definition main (base_dir : string) (input : exn + option string) : M unit :=
  try_except
    (print_stderr StartingPrediction ;;
     image_path <- lift input ;;
     fs0 <- get_fs ;;
     if falsy image_path || negb (exists_ fs0 (match image_path with Some p => p | None => "" end)) then
       write_stdout (MissingImage " Image path is missing or file does not exist." image_path)
     else
     let image_path := match image_path with Some p => p | None => ""%string end in
     print_stderr (ImagePathReceived image_path) ;;
     if negb (exists_ fs0 (model_path base_dir)) then
       write_stdout (Failure " Trained model file (uploads/model.pkl) not found." None)
     else
     if negb (exists_ fs0 (encoder_path base_dir)) then
       write_stdout (Failure " Label encoder file (uploads/label_encoder.pkl) not found." None)
     else
     print_stderr (LoadingModel (model_path base_dir)) ;;
     model <- lift (load_model L (model_path base_dir)) ;;
     print_stderr ModelLoaded ;;
     print_stderr (LoadingEncoder (encoder_path base_dir)) ;;
     label_encoder <- lift (load_encoder L (encoder_path base_dir)) ;;
     print_stderr EncoderLoaded ;;
     features <- preprocess_image image_path ;;
     prediction <- lift (predict L model features) ;;
     predicted_class <- lift (inverse_transform L label_encoder prediction) ;;
     print_stderr PredictionCompleted ;;
     write_stdout (Prediction predicted_class))
    (fun e =>
       write_stdout (Failure (" Prediction failed: " ++ str_exn e)
                             (Some (format_exc L e)))).

End Predict.
End Predict.

(* ================================================================== *)
(** ** Vocabulary for stating properties of the Dataset Loader *)

Module Dataset.
Import Paths FS.

(** the samples one class directory contributes *)
Definition class_samples (class_dir label : string) (files : list string)
  : list (string * string) :=
  map (fun file => (join class_dir [file], label))
      (filter (fun file => endswith_any (lower file) Engine.image_extensions) files).

(** the samples the entries of the root contribute, in listing order *)
Definition root_samples (fs0 : filesystem) (image_dir : string)
  (entries : list string) : list (string * string) :=
  flat_map (fun label =>
              match listdir fs0 (join image_dir [label]) with
              | Some files => class_samples (join image_dir [label]) label files
              | None => []
              end) entries.

(** [path] is an entry of the immediate subdirectory [label] of
    [image_dir], and its name ends, case-insensitively, in one of the
    allowed extensions *)
Definition sample_of (fs0 : filesystem) (image_dir path label : string) : Prop :=
  exists entries files file,
    listdir fs0 image_dir = Some entries
    /\ In label entries
    /\ listdir fs0 (join image_dir [label]) = Some files
    /\ In file files
    /\ endswith_any (lower file) Engine.image_extensions = true
    /\ path = join (join image_dir [label]) [file].

(** the (features, label) pairs of the samples PIL can open, in order *)
Definition extracted (L : Engine.library) (samples : list (string * string))
  : list (Engine.Features L * string) :=
  flat_map (fun s => match Engine.open_image L (fst s) with
                     | inl f => [(f, snd s)]
                     | inr _ => []
                     end) samples.

(** the stderr lines of the samples PIL cannot open, in order *)
Definition extraction_errors {K : Type} (L : Engine.library)
  (samples : list (string * string)) : list (@Engine.progress K) :=
  flat_map (fun s => match Engine.open_image L (fst s) with
                     | inl _ => []
                     | inr e => [Engine.ErrorProcessingImage (fst s) e]
                     end) samples.

End Dataset.

(* ================================================================== *)
(** ** Concrete inputs *)

Module Scenario.
Import Sequencer Paths FS Effect.
Open Scope string_scope.

(** the graph A(Load) -> B(Model Training) -> C(Export) *)
Definition abc_nodes : list (node (K:=string)) :=
  [ {| id := "A"; label := "Load" |};
    {| id := "B"; label := "Model Training" |};
    {| id := "C"; label := "Export" |} ].
Definition abc_edges : list (edge (K:=string)) :=
  [ {| source := "A"; target := "B" |}; {| source := "B"; target := "C" |} ].

(** nodes A, B, C with the single edge A -> C: the training node B is
    declared but no label on the way is "Model Training" *)
Definition ac_nodes : list (node (K:=string)) :=
  [ {| id := "A"; label := "Load" |};
    {| id := "C"; label := "Export" |} ].
Definition ac_edges : list (edge (K:=string)) :=
  [ {| source := "A"; target := "C" |} ].

(** a stage C beside the cycle A -> B -> A *)
Definition cyclic_nodes : list (node (K:=string)) :=
  [ {| id := "A"; label := "Load" |};
    {| id := "B"; label := "Model Training" |};
    {| id := "C"; label := "Export" |} ].
Definition cyclic_edges : list (edge (K:=string)) :=
  [ {| source := "A"; target := "B" |}; {| source := "B"; target := "A" |} ].

(** positions of A, B, C along the chain A -> B -> C *)
Definition abc_rank (k : string) : nat :=
  if string_dec k "A" then 0 else if string_dec k "B" then 1 else 2.

(** a node B behind an edge from an id Z that no node declares *)
Definition orphan_nodes : list (node (K:=string)) :=
  [ {| id := "B"; label := "Model Training" |} ].
Definition orphan_edges : list (edge (K:=string)) :=
  [ {| source := "Z"; target := "B" |} ].

(** an edge into an id that no node declares *)
Definition dangling_nodes : list (node (K:=string)) :=
  [ {| id := "A"; label := "Model Training" |} ].
Definition dangling_edges : list (edge (K:=string)) :=
  [ {| source := "A"; target := "B" |} ].

(** integer ids, the larger one declared first *)
Definition descending_nodes : list (node (K:=Z)) :=
  [ {| id := 2%Z; label := "Load" |}; {| id := 1%Z; label := "Model Training" |} ].

(** [root/cat/{a.jpg,b.png}], [root/dog/{c.jpeg}], a stray [root/readme.txt],
    and the directory of the two scripts *)
Definition tree_fs : filesystem :=
  [ ("root", Directory ["cat"; "dog"; "readme.txt"]);
    ("root/cat", Directory ["a.jpg"; "b.png"]);
    ("root/cat/a.jpg", RegularFile);
    ("root/cat/b.png", RegularFile);
    ("root/dog", Directory ["c.jpeg"]);
    ("root/dog/c.jpeg", RegularFile);
    ("root/readme.txt", RegularFile);
    ("/app/ml-backend", Directory ["ml_engine.py"; "predict.py"]);
    ("/app/ml-backend/ml_engine.py", RegularFile);
    ("/app/ml-backend/predict.py", RegularFile) ].

(** a class directory whose only entry is a subdirectory named like an
    image *)
Definition nested_fs : filesystem :=
  [ ("root", Directory ["cat"]);
    ("root/cat", Directory ["x.jpg"]);
    ("root/cat/x.jpg", Directory []) ].

(** the tree of the scenario, with a directory where the engine writes
    the label encoder *)
Definition blocked_fs : filesystem :=
  (tree_fs ++ [ ("/app/ml-backend/label_encoder.pkl", Directory []) ])%list.

(** an image folder that exists and is empty *)
Definition empty_fs : filesystem :=
  [ ("root", Directory []);
    ("/app/ml-backend", Directory ["ml_engine.py"; "predict.py"]) ].

(** A stand-in for the learning libraries: features are the path read,
    the encoder is the label list, every step succeeds.  [readable]
    says which paths PIL can open. *)
Definition toy_engine (readable : string -> bool) : Engine.library :=
  {| Engine.Features := string;
     Engine.Encoder := list string;
     Engine.Split := list string * list Z;
     Engine.Model := unit;
     Engine.Accuracy := nat;
     Engine.open_image := fun p =>
       if readable p then inl p else inr "cannot identify image file";
     Engine.fit_transform := fun y => inr (y, map (fun _ => 0%Z) y);
     Engine.train_test_split := fun X y => inr (X, y);
     Engine.fit := fun _ => inr tt;
     Engine.score := fun _ _ => inr 1;
     Engine.format_exc := fun _ => "Traceback (most recent call last): ..." |}.

Definition toy_predict : Predict.library :=
  {| Predict.Features := string;
     Predict.Model := unit;
     Predict.Encoder := unit;
     Predict.open_image := fun p => inl p;
     Predict.load_model := fun _ => inr tt;
     Predict.load_encoder := fun _ => inr tt;
     Predict.predict := fun _ _ => inr 0%Z;
     Predict.inverse_transform := fun _ _ => inr "cat";
     Predict.format_exc := fun _ => "Traceback (most recent call last): ..." |}.

(** the tree of the scenario with both artifacts under [uploads/] *)
Definition served_fs : filesystem :=
  (tree_fs ++
   [ ("/app/ml-backend/uploads/model.pkl", RegularFile);
     ("/app/ml-backend/uploads/label_encoder.pkl", RegularFile) ])%list.

(** as [toy_predict], with a PIL that can open nothing *)
Definition blind_predict : Predict.library :=
  {| Predict.Features := string;
     Predict.Model := unit;
     Predict.Encoder := unit;
     Predict.open_image := fun _ => inr "cannot identify image file";
     Predict.load_model := fun _ => inr tt;
     Predict.load_encoder := fun _ => inr tt;
     Predict.predict := fun _ _ => inr 0%Z;
     Predict.inverse_transform := fun _ _ => inr "cat";
     Predict.format_exc := fun _ => "Traceback (most recent call last): ..." |}.

Definition dangling_payload (folder : string) : Engine.payload (K:=string) :=
  {| Engine.p_nodes := Some dangling_nodes; Engine.p_edges := Some dangling_edges;
     Engine.p_imageFolder := Some folder |}.

Definition engine_start (L : Engine.library) (fs0 : filesystem)
  : Engine.world (K:=string) L :=
  {| Engine.fs := fs0; Engine.stdout := []; Engine.stderr := [] |}.

Definition predict_start (fs0 : filesystem) : Predict.world :=
  {| Predict.fs := fs0; Predict.stdout := []; Predict.stderr := [] |}.

Definition abc_payload (folder : string) : Engine.payload (K:=string) :=
  {| Engine.p_nodes := Some abc_nodes; Engine.p_edges := Some abc_edges;
     Engine.p_imageFolder := Some folder |}.

Definition ac_payload (folder : string) : Engine.payload (K:=string) :=
  {| Engine.p_nodes := Some ac_nodes; Engine.p_edges := Some ac_edges;
     Engine.p_imageFolder := Some folder |}.

(** [repr] of a string id without quotes or escapes *)
Definition repr_string (s : string) : string := "'" ++ s ++ "'".

End Scenario.

(* ================================================================== *)
(** ** Facts about dictionaries *)

Section DictFacts.
Context {K V : Type}.
Variable K_eq_dec : forall x y : K, {x = y} + {x <> y}.
Implicit Types (d : Dict.dict (K:=K) (V:=V)).
Local Abbreviation dget := (Dict.get K_eq_dec).
Local Abbreviation dset := (Dict.set K_eq_dec).
Local Abbreviation dkeys := (@Dict.keys K V).

Lemma get_set_same k v d : dget k (dset k v d) = Some v.
Proof.
  induction d as [|[k' v'] d IH]; simpl.
  - destruct (K_eq_dec k k); congruence.
  - destruct (K_eq_dec k k') as [E|N]; simpl.
    + destruct (K_eq_dec k k'); congruence.
    + destruct (K_eq_dec k k'); congruence.
Qed.

Lemma get_set_other k k' v d : k <> k' -> dget k' (dset k v d) = dget k' d.
Proof.
  intros N. induction d as [|[k0 v0] d IH]; simpl.
  - destruct (K_eq_dec k' k); congruence.
  - destruct (K_eq_dec k k0) as [E|N0]; simpl.
    + subst k0. destruct (K_eq_dec k' k); congruence.
    + destruct (K_eq_dec k' k0); congruence.
Qed.

Lemma get_Some_keys k d v : dget k d = Some v -> In k (dkeys d).
Proof.
  induction d as [|[k' v'] d IH]; simpl; [discriminate|].
  destruct (K_eq_dec k k'); auto.
Qed.

Lemma keys_get_Some k d : In k (dkeys d) -> exists v, dget k d = Some v.
Proof.
  induction d as [|[k' v'] d IH]; simpl; [tauto|].
  intros [E|I]; destruct (K_eq_dec k k'); eauto; congruence.
Qed.

Lemma keys_set_present k v d : In k (dkeys d) -> dkeys (dset k v d) = dkeys d.
Proof.
  induction d as [|[k' v'] d IH]; simpl; [tauto|].
  intros I. destruct (K_eq_dec k k') as [E|N]; simpl; [reflexivity|].
  f_equal. apply IH. destruct I; congruence.
Qed.

Lemma keys_set_absent k v d : ~ In k (dkeys d) -> dkeys (dset k v d) = dkeys d ++ [k].
Proof.
  induction d as [|[k' v'] d IH]; simpl; [reflexivity|].
  intros NI. destruct (K_eq_dec k k') as [E|N]; simpl.
  - exfalso. apply NI. left. congruence.
  - f_equal. apply IH. tauto.
Qed.
End DictFacts.

(* ================================================================== *)
(** ** Facts about the Sequencer *)

Import Sequencer Graph.

Section SequencerFacts.
Context {K : Type}.
Variable K_eq_dec : forall x y : K, {x = y} + {x <> y}.
Local Abbreviation dget := (Dict.get K_eq_dec).
Local Abbreviation dset := (Dict.set K_eq_dec).
Local Abbreviation node := (@Sequencer.node K).
Local Abbreviation edge := (@Sequencer.edge K).
Local Abbreviation succs := (successors K_eq_dec).
Local Abbreviation pend_in := (pending_in K_eq_dec).
Local Abbreviation lookup := (dd_lookup K_eq_dec).
Local Abbreviation occ := (count_occ K_eq_dec).

Lemma pending_in_cons (e : edge) es done v :
  pend_in (e :: es) done v
  = (if K_eq_dec (target e) v
     then if in_dec K_eq_dec (source e) done then 0 else 1
     else 0) + pend_in es done v.
Proof.
  unfold pending_in. simpl.
  destruct (K_eq_dec (target e) v); [|reflexivity].
  destruct (in_dec K_eq_dec (source e) done); reflexivity.
Qed.

Lemma successors_cons (e : edge) es k :
  succs (e :: es) k
  = (if K_eq_dec (source e) k then [target e] else []) ++ succs es k.
Proof.
  unfold successors. simpl. destruct (K_eq_dec (source e) k); reflexivity.
Qed.

Lemma lookup_getitem k k' g :
  lookup k' (snd (dd_getitem K_eq_dec k g)) = lookup k' g
  /\ fst (dd_getitem K_eq_dec k g) = lookup k g.
Proof.
  unfold dd_getitem, dd_lookup.
  destruct (dget k g) as [l|] eqn:G; simpl; [split; reflexivity|].
  split; [|reflexivity].
  destruct (K_eq_dec k k') as [<-|N].
  - now rewrite get_set_same, G.
  - now rewrite get_set_other.
Qed.

Lemma lookup_append s t k g :
  lookup k (dd_append K_eq_dec s t g)
  = lookup k g ++ (if K_eq_dec s k then [t] else []).
Proof.
  unfold dd_append.
  destruct (lookup_getitem s k g) as [H1 H2].
  destruct (lookup_getitem s s g) as [_ H3].
  destruct (dd_getitem K_eq_dec s g) as [l g1]; simpl in *.
  unfold dd_lookup in *.
  destruct (K_eq_dec s k) as [<-|N].
  - rewrite get_set_same. now rewrite H3.
  - rewrite get_set_other by assumption. now rewrite H1, app_nil_r.
Qed.

(** *** Building [graph] and [in_degree] *)

Lemma add_edges_ok (es : list edge) :
  forall (g : @adjacency K) (deg : @degrees K) (g' : @adjacency K) (deg' : @degrees K),
  add_edges K_eq_dec es (g, deg) = Ok (g', deg') ->
  Dict.keys deg' = Dict.keys deg
  /\ (forall k, lookup k g' = lookup k g ++ succs es k)
  /\ (forall v d', dget v deg' = Some d' ->
        exists d, dget v deg = Some d /\ d' = (d + Z.of_nat (pend_in es [] v))%Z)
  /\ (forall e, In e es -> In (target e) (Dict.keys deg)).
Proof.
  induction es as [|e es IH]; intros g deg g' deg' H; simpl in H.
  - injection H as <- <-. repeat split.
    + intros k. now rewrite app_nil_r.
    + intros v d' G. exists d'. split; [assumption|]. unfold pending_in; simpl. lia.
    + intros e [].
  - destruct (dget (target e) deg) as [d|] eqn:G; simpl in H; [|discriminate].
    apply IH in H. destruct H as (Hk & Hg & Hd & Ht).
    assert (Kp : In (target e) (Dict.keys deg)) by (eapply get_Some_keys; eassumption).
    rewrite keys_set_present in Hk, Ht by assumption.
    repeat split.
    + assumption.
    + intros k. rewrite Hg, lookup_append, <- app_assoc. f_equal.
      now rewrite successors_cons.
    + intros v d' G'. destruct (Hd v d' G') as (d1 & G1 & E1).
      rewrite pending_in_cons.
      destruct (K_eq_dec (target e) v) as [<-|N].
      * rewrite get_set_same in G1. injection G1 as <-.
        exists d. split; [assumption|].
        destruct (in_dec K_eq_dec (source e) []) as [[]|_]. lia.
      * rewrite get_set_other in G1 by assumption.
        exists d1. split; [assumption|]. lia.
    + intros e' [<-|I]; auto.
Qed.

Lemma add_edges_total (es : list edge) :
  forall (g : @adjacency K) (deg : @degrees K),
  (forall e, In e es -> In (target e) (Dict.keys deg)) ->
  exists g' deg', add_edges K_eq_dec es (g, deg) = Ok (g', deg').
Proof.
  induction es as [|e es IH]; intros g deg H; simpl.
  - eauto.
  - destruct (keys_get_Some K_eq_dec (target e) deg) as [d G]; [apply H; now left|].
    rewrite G. simpl. apply IH. intros e' I.
    rewrite keys_set_present by (eapply get_Some_keys; eassumption).
    apply H. now right.
Qed.

Lemma add_edges_raises (es : list edge) :
  forall (g : @adjacency K) (deg : @degrees K) e,
  In e es -> ~ In (target e) (Dict.keys deg) ->
  exists k, add_edges K_eq_dec es (g, deg) = KeyError k.
Proof.
  induction es as [|e0 es IH]; intros g deg e I NI; [destruct I|].
  simpl. destruct (dget (target e0) deg) as [d|] eqn:G; simpl; [|eauto].
  destruct I as [->|I].
  - exfalso. apply NI. eapply get_Some_keys; eassumption.
  - apply IH with (e := e); [assumption|].
    rewrite keys_set_present by (eapply get_Some_keys; eassumption). assumption.
Qed.

Lemma first_occurrences_ext (l : list K) : forall s1 s2,
  (forall x, In x s1 <-> In x s2) ->
  first_occurrences K_eq_dec s1 l = first_occurrences K_eq_dec s2 l.
Proof.
  induction l as [|x l IH]; intros s1 s2 H; simpl; [reflexivity|].
  destruct (in_dec K_eq_dec x s1) as [I1|N1], (in_dec K_eq_dec x s2) as [I2|N2].
  - now apply IH.
  - exfalso. apply N2, H, I1.
  - exfalso. apply N1, H, I2.
  - f_equal. apply IH. intros y. simpl. rewrite H. tauto.
Qed.

Lemma init_in_degree_fold (nodes : list node) : forall d : @degrees K,
  (forall v z, dget v d = Some z -> z = 0%Z) ->
  let d' := fold_left (fun d n => dset (id n) 0%Z d) nodes d in
  Dict.keys d' = Dict.keys d ++ first_occurrences K_eq_dec (Dict.keys d) (ids nodes)
  /\ (forall v z, dget v d' = Some z -> z = 0%Z).
Proof.
  induction nodes as [|n nodes IH]; intros d H; simpl.
  - now rewrite app_nil_r.
  - assert (H' : forall v z, dget v (dset (id n) 0%Z d) = Some z -> z = 0%Z).
    { intros v z. destruct (K_eq_dec (id n) v) as [<-|N].
      - rewrite get_set_same. congruence.
      - rewrite get_set_other by assumption. apply H. }
    destruct (IH _ H') as [Hk Hz]. split; [|assumption].
    rewrite Hk. destruct (in_dec K_eq_dec (id n) (Dict.keys d)) as [I|NI].
    + now rewrite keys_set_present.
    + rewrite keys_set_absent by assumption. rewrite <- app_assoc. simpl.
      do 2 f_equal. apply first_occurrences_ext. intros x.
      rewrite in_app_iff. simpl. tauto.
Qed.

Lemma init_in_degree_spec (nodes : list node) :
  Dict.keys (init_in_degree K_eq_dec nodes) = first_occurrences K_eq_dec [] (ids nodes)
  /\ (forall v z, dget v (init_in_degree K_eq_dec nodes) = Some z -> z = 0%Z).
Proof.
  apply (init_in_degree_fold nodes []). intros v z. simpl. discriminate.
Qed.

Lemma first_occurrences_In (l : list K) : forall seen x,
  In x (first_occurrences K_eq_dec seen l) <-> In x l /\ ~ In x seen.
Proof.
  induction l as [|y l IH]; intros seen x; simpl; [tauto|].
  destruct (in_dec K_eq_dec y seen) as [I|NI].
  - rewrite IH. split; [tauto|]. intros [[->|H] N]; tauto.
  - simpl. rewrite IH. simpl. split.
    + intros [->|[H N]]; tauto.
    + intros [[->|H] N]; [tauto|].
      destruct (K_eq_dec y x); [tauto|]. right. tauto.
Qed.

Lemma init_in_degree_keys (nodes : list node) v :
  In v (Dict.keys (init_in_degree K_eq_dec nodes)) <-> In v (ids nodes).
Proof.
  rewrite (proj1 (init_in_degree_spec nodes)), first_occurrences_In. simpl. tauto.
Qed.

(** *** Counting the edges that still wait for their source *)

Lemma pending_in_zero (es : list edge) done v :
  pend_in es done v = 0 ->
  forall e, In e es -> target e = v -> In (source e) done.
Proof.
  induction es as [|e0 es IH]; intros Z0 e I T; [destruct I|].
  rewrite pending_in_cons in Z0. destruct I as [->|I].
  - destruct (K_eq_dec (target e) v); [|contradiction].
    destruct (in_dec K_eq_dec (source e) done); [assumption|discriminate].
  - apply IH; [lia|assumption..].
Qed.

Lemma pending_in_pos (es : list edge) done v :
  pend_in es done v <> 0 ->
  exists e, In e es /\ target e = v /\ ~ In (source e) done.
Proof.
  induction es as [|e0 es IH]; intros P; [now elim P|].
  rewrite pending_in_cons in P.
  destruct (K_eq_dec (target e0) v) as [T|T];
    [destruct (in_dec K_eq_dec (source e0) done) as [I|NI]|].
  - destruct IH as (e & I' & H); [lia|]. exists e. split; [now right|assumption].
  - exists e0. split; [now left|tauto].
  - destruct IH as (e & I' & H); [lia|]. exists e. split; [now right|assumption].
Qed.

Lemma pending_in_snoc (es : list edge) done nid v :
  ~ In nid done ->
  pend_in es done v = pend_in es (done ++ [nid]) v + occ (succs es nid) v.
Proof.
  intros NI. induction es as [|e es IH]; [reflexivity|].
  rewrite !pending_in_cons, successors_cons, IH.
  destruct (K_eq_dec (source e) nid) as [S|S].
  - destruct (in_dec K_eq_dec (source e) done) as [I|N];
      [exfalso; apply NI; congruence|].
    destruct (in_dec K_eq_dec (source e) (done ++ [nid])) as [I'|N'];
      [|exfalso; apply N', in_or_app; right; left; congruence].
    simpl. destruct (K_eq_dec (target e) v); lia.
  - destruct (in_dec K_eq_dec (source e) done) as [I|N];
      destruct (in_dec K_eq_dec (source e) (done ++ [nid])) as [I'|N'];
      simpl; try lia; exfalso.
    + apply N', in_or_app. now left.
    + apply in_app_or in I'. destruct I' as [I'|[I'|[]]]; [tauto|congruence].
Qed.

Lemma successors_targets (es : list edge) k v :
  In v (succs es k) -> exists e, In e es /\ target e = v /\ source e = k.
Proof.
  unfold successors. rewrite in_map_iff. intros (e & T & I).
  apply filter_In in I. destruct I as [I S].
  destruct (K_eq_dec (source e) k); [eauto|discriminate].
Qed.

(** *** The inner [for] loop keeps the invariant *)

Lemma visit_neighbors_inv (nodes : list node) (es : list edge) ord :
  forall nbrs deg q,
  invariant K_eq_dec nodes es nbrs deg q ord ->
  exists deg' extra,
    visit_neighbors K_eq_dec nbrs deg q = Ok (deg', q ++ extra)
    /\ invariant K_eq_dec nodes es [] deg' (q ++ extra) ord.
Proof.
  induction nbrs as [|nb rest IH]; intros deg q [Hk Hp Hn Hc Hr He].
  - exists deg, []. rewrite app_nil_r. simpl. split; [reflexivity|].
    constructor; assumption.
  - simpl.
    destruct (keys_get_Some K_eq_dec nb deg) as [d G];
      [apply Hk, Hp; now left|].
    rewrite G.
    pose proof (Hc nb d G) as Ed.
    rewrite count_occ_cons_eq in Ed by reflexivity.
    assert (Fresh : ~ In nb (ord ++ q)).
    { intros I. apply Hr in I. rewrite G in I. injection I as ->. lia. }
    assert (Hk' : forall v, In v (Dict.keys (dset nb (d - 1)%Z deg)) <-> In v (ids nodes)).
    { intros v. rewrite keys_set_present; [apply Hk|].
      eapply get_Some_keys; eassumption. }
    assert (Hc' : forall v z, dget v (dset nb (d - 1)%Z deg) = Some z ->
              z = Z.of_nat (pend_in es ord v + occ rest v)).
    { intros v z. destruct (K_eq_dec nb v) as [<-|N].
      - rewrite get_set_same. intros [= <-]. lia.
      - rewrite get_set_other by assumption. intros G'.
        rewrite (Hc v z G'), count_occ_cons_neq by assumption. reflexivity. }
    destruct (Z.eqb_spec (d - 1) 0) as [Z0|NZ].
    + destruct (IH (dset nb (d - 1)%Z deg) (q ++ [nb])) as (deg' & extra & R & I').
      { constructor; try assumption.
        - intros v I. apply Hp. now right.
        - rewrite app_assoc. apply NoDup_app.
          + assumption.
          + repeat constructor. intros [].
          + intros a I [<-|[]]. contradiction.
        - intros v. rewrite app_assoc, in_app_iff. simpl.
          destruct (K_eq_dec nb v) as [<-|N].
          + rewrite get_set_same, Z0. tauto.
          + rewrite get_set_other by assumption. rewrite <- Hr. tauto. }
      exists deg', ([nb] ++ extra). rewrite app_assoc. split; assumption.
    + destruct (IH (dset nb (d - 1)%Z deg) q) as (deg' & extra & R & I').
      { constructor; try assumption.
        - intros v I. apply Hp. now right.
        - intros v. destruct (K_eq_dec nb v) as [<-|N].
          + rewrite get_set_same. split; [contradiction|]. intros [= E]. contradiction.
          + rewrite get_set_other by assumption. apply Hr. }
      exists deg', extra. split; assumption.
Qed.

(** *** The [while] loop: it ends, and it keeps the invariant *)

Lemma while_queue_enough (nodes : list node) (es : list edge) :
  (forall e, In e es -> In (target e) (ids nodes)) ->
  forall fuel st,
  invariant K_eq_dec nodes es [] (in_degree st) (queue st) (order st) ->
  (forall k, lookup k (graph st) = succs es k) ->
  List.length nodes <= fuel + List.length (order st) ->
  exists st',
    while_queue K_eq_dec fuel st = Ok st'
    /\ queue st' = []
    /\ invariant K_eq_dec nodes es [] (in_degree st') [] (order st')
    /\ exists rest, order st' = order st ++ queue st ++ rest.
Proof.
  intros Ht. induction fuel as [|fuel IH]; intros [g deg q ord] I Hg Hf; simpl in *.
  - destruct q as [|nid q].
    + exists {| graph := g; in_degree := deg; queue := []; order := ord |}.
      simpl. split; [reflexivity|]. split; [reflexivity|]. split; [assumption|].
      exists []. now rewrite app_nil_r.
    + exfalso. pose proof (inv_nodup I) as N.
      apply NoDup_incl_length with (l' := ids nodes) in N.
      * unfold ids in N. rewrite length_app, length_map in N. simpl in N. lia.
      * intros v Iv. apply (inv_keys I). eapply get_Some_keys.
        apply (inv_ready I). exact Iv.
  - destruct q as [|nid q].
    + exists {| graph := g; in_degree := deg; queue := []; order := ord |}.
      simpl. split; [reflexivity|]. split; [reflexivity|]. split; [assumption|].
      exists []. now rewrite app_nil_r.
    + destruct (lookup_getitem nid nid g) as [_ Hfst].
      pose proof (fun k' => proj1 (lookup_getitem nid k' g)) as Hsnd.
      destruct (dd_getitem K_eq_dec nid g) as [nbrs g1]. simpl in Hfst, Hsnd.
      rewrite Hg in Hfst. subst nbrs.
      destruct I as [Hk _ Hn Hc Hr He].
      assert (Fresh : ~ In nid ord).
      { apply NoDup_remove_2 in Hn. intros X. apply Hn, in_or_app. now left. }
      assert (Zero : pend_in es ord nid = 0).
      { assert (G : dget nid deg = Some 0%Z) by (apply Hr, in_or_app; right; now left).
        apply Hc in G. simpl in G. lia. }
      destruct (@visit_neighbors_inv nodes es (ord ++ [nid]) (succs es nid) deg q)
        as (deg' & extra & R & I').
      { constructor.
        - assumption.
        - intros v Iv. apply successors_targets in Iv.
          destruct Iv as (e & Ie & <- & _). now apply Ht.
        - now rewrite <- app_assoc.
        - intros v d G. rewrite (Hc v d G). simpl count_occ.
          rewrite Nat.add_0_r. f_equal. now apply pending_in_snoc.
        - intros v. rewrite <- app_assoc. apply Hr.
        - intros e Ie It. apply in_app_or in It.
          destruct (in_dec K_eq_dec (target e) ord) as [Io|No].
          + destruct (He e Ie Io) as (l1 & l2 & E & Is).
            exists l1, (l2 ++ [nid]). split; [|assumption].
            rewrite E, <- app_assoc. reflexivity.
          + destruct It as [It|[It|[]]]; [contradiction|].
            exists ord, []. split; [now rewrite <- It|].
            eapply pending_in_zero; eauto. }
      rewrite R. simpl.
      destruct (IH {| graph := g1; in_degree := deg'; queue := q ++ extra;
                      order := ord ++ [nid] |}) as (st' & W & Q & I'' & rest & E).
      * exact I'.
      * simpl. intros k. now rewrite Hsnd.
      * simpl. rewrite length_app. simpl. lia.
      * exists st'. split; [assumption|]. split; [assumption|]. split; [assumption|].
        simpl in E. exists (extra ++ rest). rewrite E, <- !app_assoc. reflexivity.
Qed.

Lemma first_occurrences_NoDup (l : list K) : forall seen,
  NoDup (first_occurrences K_eq_dec seen l).
Proof.
  induction l as [|x l IH]; intros seen; simpl; [constructor|].
  destruct (in_dec K_eq_dec x seen); [apply IH|].
  constructor; [|apply IH]. rewrite first_occurrences_In. simpl. tauto.
Qed.

Lemma get_In_NoDup {V : Type} (d : Dict.dict (K:=K) (V:=V)) k v :
  NoDup (Dict.keys d) -> (In (k, v) d <-> Dict.get K_eq_dec k d = Some v).
Proof.
  induction d as [|[k0 v0] d IH]; simpl; intros N.
  - split; [tauto|discriminate].
  - inversion N as [|? ? N1 N2]; subst.
    destruct (K_eq_dec k k0) as [->|Ne].
    + split.
      * intros [[= ->]|I]; [reflexivity|].
        exfalso. apply N1. apply in_map_iff. exists (k0, v). auto.
      * intros [= ->]. now left.
    + rewrite <- IH by assumption. split.
      * intros [[= ? ?]|I]; [congruence|assumption].
      * now right.
Qed.

Lemma initial_queue_In (deg : @degrees K) v :
  NoDup (Dict.keys deg) ->
  (In v (initial_queue deg) <-> dget v deg = Some 0%Z).
Proof.
  intros N. unfold initial_queue. rewrite <- get_In_NoDup by assumption.
  rewrite in_map_iff. split.
  - intros ([k z] & <- & I). apply filter_In in I. simpl in *.
    destruct I as [I Z0]. apply Z.eqb_eq in Z0. now subst.
  - intros I. exists (v, 0%Z). split; [reflexivity|].
    apply filter_In. auto.
Qed.

Lemma initial_queue_NoDup (deg : @degrees K) :
  NoDup (Dict.keys deg) -> NoDup (initial_queue deg).
Proof.
  unfold initial_queue, Dict.keys.
  induction deg as [|[k z] deg IH]; simpl; intros N; [constructor|].
  inversion N as [|? ? N1 N2]; subst.
  destruct (Z.eqb z 0); simpl; [|now apply IH].
  constructor; [|now apply IH].
  intros I. apply N1. apply in_map_iff in I. destruct I as (kv & E & I).
  apply filter_In in I. apply in_map_iff. exists kv. tauto.
Qed.

Lemma initial_queue_filter (es : list edge) (deg : @degrees K) :
  (forall k z, In (k, z) deg -> z = Z.of_nat (pend_in es [] k)) ->
  initial_queue deg
  = filter (fun v => Nat.eqb (pend_in es [] v) 0) (Dict.keys deg).
Proof.
  unfold initial_queue, Dict.keys.
  induction deg as [|[k z] deg IH]; intros H; simpl; [reflexivity|].
  rewrite (H k z) by now left.
  rewrite <- IH by (intros; apply H; now right).
  destruct (Nat.eqb_spec (pend_in es [] k) 0) as [->|N]; [reflexivity|].
  destruct (Z.eqb_spec (Z.of_nat (pend_in es [] k)) 0); [lia|reflexivity].
Qed.

(** *** The whole function *)

Lemma build_execution_order_run (nodes : list node) (es : list edge) :
  (forall e, In e es -> In (target e) (ids nodes)) ->
  exists ord deg rest,
    build_execution_order K_eq_dec nodes es = Ok ord
    /\ invariant K_eq_dec nodes es [] deg [] ord
    /\ ord = ready_initially K_eq_dec nodes es ++ rest.
Proof.
  intros Ht. unfold build_execution_order.
  destruct (init_in_degree_spec nodes) as [Hk0 Hz0].
  destruct (@add_edges_total es defaultdict_list (init_in_degree K_eq_dec nodes)) as (g & deg & A).
  { intros e I. apply init_in_degree_keys. now apply Ht. }
  rewrite A. apply add_edges_ok in A. destruct A as (Hk & Hg & Hd & _). simpl.
  assert (N : NoDup (Dict.keys deg)).
  { rewrite Hk, Hk0. apply first_occurrences_NoDup. }
  assert (Hc : forall v d, dget v deg = Some d -> d = Z.of_nat (pend_in es [] v)).
  { intros v d G. destruct (Hd v d G) as (d0 & G0 & ->).
    rewrite (Hz0 v d0 G0). lia. }
  destruct (@while_queue_enough nodes es Ht (List.length nodes)
              {| graph := g; in_degree := deg; queue := initial_queue deg;
                 order := [] |}) as (st' & W & Q & I & rest & E).
  - constructor; simpl.
    + intros v. rewrite Hk. apply init_in_degree_keys.
    + intros v [].
    + now apply initial_queue_NoDup.
    + intros v d G. rewrite Nat.add_0_r. now apply Hc.
    + intros v. now apply initial_queue_In.
    + intros e _ [].
  - simpl. intros k. rewrite Hg. unfold dd_lookup. reflexivity.
  - simpl. lia.
  - rewrite W. simpl. exists (order st'), (in_degree st'), rest.
    split; [reflexivity|]. split; [assumption|].
    simpl in E. rewrite E. f_equal. unfold ready_initially.
    rewrite <- Hk0, <- Hk. apply initial_queue_filter.
    intros k z Ikz. apply Hc. now apply get_In_NoDup.
Qed.

Lemma build_execution_order_targets (nodes : list node) (es : list edge) ord :
  build_execution_order K_eq_dec nodes es = Ok ord ->
  forall e, In e es -> In (target e) (ids nodes).
Proof.
  unfold build_execution_order. intros B e I.
  destruct (add_edges K_eq_dec es (defaultdict_list, init_in_degree K_eq_dec nodes))
    as [[g deg]| |] eqn:A; try discriminate.
  apply add_edges_ok in A. apply init_in_degree_keys. now apply A.
Qed.

(** *** A finite set in which every element has a predecessor has a cycle *)

Lemma predecessor_chain_cycle (T : relation K) :
  (forall x y z, T x y -> T y z -> T x z) ->
  forall n (S : list K),
  List.length S <= n -> S <> [] ->
  (forall v, In v S -> exists s, In s S /\ T s v) ->
  exists x, T x x.
Proof.
  intros Tr. induction n as [|n IH]; intros S L NE H.
  - destruct S; [congruence|simpl in L; lia].
  - destruct S as [|a S']; [congruence|].
    destruct (H a (or_introl eq_refl)) as (s & Is & Tsa).
    destruct (K_eq_dec s a) as [->|Nsa]; [eauto|].
    apply (IH (remove K_eq_dec a (a :: S'))).
    + pose proof (remove_length_lt K_eq_dec (a :: S') a (or_introl eq_refl)).
      lia.
    + intros E. assert (X : In s (remove K_eq_dec a (a :: S')))
        by (apply in_in_remove; assumption).
      rewrite E in X. destruct X.
    + intros v Iv. apply in_remove in Iv. destruct Iv as [Iv Nv].
      destruct (H v Iv) as (p & Ip & Tpv).
      destruct (K_eq_dec p a) as [->|Npa].
      * exists s. split; [now apply in_in_remove|]. eapply Tr; eassumption.
      * exists p. split; [now apply in_in_remove|assumption].
Qed.

Lemma acyclic_all_ordered (nodes : list node) (es : list edge) deg ord :
  well_formed nodes es -> acyclic es ->
  invariant K_eq_dec nodes es [] deg [] ord ->
  forall v, In v (ids nodes) -> In v ord.
Proof.
  intros WF AC I.
  set (S := filter (fun v => if in_dec K_eq_dec v ord then false else true) (ids nodes)).
  assert (InS : forall v, In v S <-> In v (ids nodes) /\ ~ In v ord).
  { intros v. unfold S. rewrite filter_In.
    destruct (in_dec K_eq_dec v ord); intuition discriminate. }
  intros v Iv. destruct (in_dec K_eq_dec v ord) as [|No]; [assumption|exfalso].
  destruct (@predecessor_chain_cycle (clos_trans K (edge_rel es))
              (fun x y z => @t_trans K _ x y z) (List.length S) S) as [x Cx].
  - lia.
  - intros E. assert (X : In v S) by (apply InS; tauto). rewrite E in X. destruct X.
  - intros w Iw. apply InS in Iw. destruct Iw as [Iw Nw].
    destruct (keys_get_Some K_eq_dec w deg) as [d G]; [now apply (inv_keys I)|].
    pose proof (inv_count I _ G) as Ed. simpl in Ed. rewrite Nat.add_0_r in Ed.
    destruct (@pending_in_pos es ord w) as (e & Ie & Te & Se).
    { intros Z0. apply Nw. rewrite <- (app_nil_r ord). apply (inv_ready I).
      rewrite G, Ed, Z0. reflexivity. }
    exists (source e). split.
    + apply InS. split; [apply (WF e Ie)|assumption].
    + apply t_step. unfold edge_rel. rewrite <- Te. now destruct e.
  - exact (AC x Cx).
Qed.

End SequencerFacts.

(** *** The queue is first-in-first-out, whatever the state *)

Section SequencerFifo.
Context {K : Type}.
Variable K_eq_dec : forall x y : K, {x = y} + {x <> y}.

Lemma visit_neighbors_appends (nbrs : list K) : forall deg q deg' q',
  visit_neighbors K_eq_dec nbrs deg q = Ok (deg', q') ->
  exists extra, q' = q ++ extra.
Proof.
  induction nbrs as [|nb rest IH]; intros deg q deg' q' H; simpl in H.
  - injection H as <- <-. exists []. now rewrite app_nil_r.
  - destruct (Dict.get K_eq_dec nb deg) as [d|]; [|discriminate].
    apply IH in H. destruct H as [extra ->].
    destruct (Z.eqb (d - 1) 0).
    + exists ([nb] ++ extra). now rewrite app_assoc.
    + now exists extra.
Qed.

Lemma while_queue_fifo : forall fuel (st st' : @state K),
  while_queue K_eq_dec fuel st = Ok st' ->
  exists rest, order st' = order st ++ queue st ++ rest.
Proof.
  induction fuel as [|fuel IH]; intros [g deg q ord] st' H; simpl in *.
  - destruct q; [|discriminate]. injection H as <-. exists []. now rewrite app_nil_r.
  - destruct q as [|nid q].
    + injection H as <-. exists []. now rewrite app_nil_r.
    + destruct (dd_getitem K_eq_dec nid g) as [nbrs g1].
      destruct (visit_neighbors K_eq_dec nbrs deg q) as [[deg' q']| |] eqn:V;
        simpl in H; try discriminate.
      apply visit_neighbors_appends in V. destruct V as [extra ->].
      apply IH in H. destruct H as [rest H]. simpl in H.
      exists (extra ++ rest). rewrite H, <- !app_assoc. reflexivity.
Qed.

End SequencerFifo.

(* ================================================================== *)
(** ** Properties of the Sequencer *)

Section SequencerClaims.
Context {K : Type}.
Variable K_eq_dec : forall x y : K, {x = y} + {x <> y}.
Local Abbreviation node := (@Sequencer.node K).
Local Abbreviation edge := (@Sequencer.edge K).
Local Abbreviation build := (build_execution_order K_eq_dec).

(** C9.  Whatever the graph (cycles, edges from undeclared sources), when
    the Sequencer returns an order, every id in it is a declared node id
    and no id occurs in it twice. *)
Theorem order_declared_and_duplicate_free (nodes : list node) (es : list edge) ord :
  build nodes es = Ok ord ->
  (forall v, In v ord -> In v (ids nodes)) /\ NoDup ord.
Proof.
  intros B.
  destruct (build_execution_order_run K_eq_dec nodes es) as (ord' & deg & rest & B' & I & _).
  { eapply build_execution_order_targets; eassumption. }
  rewrite B in B'. injection B' as <-.
  split.
  - intros v Iv. apply (inv_keys I). eapply get_Some_keys.
    apply (inv_ready I). rewrite app_nil_r. exact Iv.
  - pose proof (inv_nodup I) as N. now rewrite app_nil_r in N.
Qed.

(** C5.  For an acyclic graph whose edges join declared node ids, the
    Sequencer returns an order in which every node id occurs exactly
    once, which holds nothing else, and in which the source of every edge
    comes before its target; a second run returns the same order. *)
Theorem acyclic_graph_fully_ordered (nodes : list node) (es : list edge) :
  well_formed nodes es -> acyclic es ->
  exists ord,
    build nodes es = Ok ord
    /\ (forall v, In v (ids nodes) -> count_occ K_eq_dec ord v = 1)
    /\ (forall v, In v ord -> In v (ids nodes))
    /\ (forall e, In e es -> before (source e) (target e) ord)
    /\ (forall ord', build nodes es = Ok ord' -> ord' = ord).
Proof.
  intros WF AC.
  destruct (build_execution_order_run K_eq_dec nodes es) as (ord & deg & rest & B & I & _).
  { intros e Ie. apply (WF e Ie). }
  pose proof (@acyclic_all_ordered K K_eq_dec nodes es deg ord WF AC I) as All.
  assert (N : NoDup ord) by (pose proof (inv_nodup I) as N; now rewrite app_nil_r in N).
  exists ord. split; [assumption|]. split; [|split; [|split]].
  - intros v Iv. apply (proj1 (NoDup_count_occ' K_eq_dec ord) N). now apply All.
  - intros v Iv. apply (inv_keys I). eapply get_Some_keys.
    apply (inv_ready I). rewrite app_nil_r. exact Iv.
  - intros e Ie.
    destruct (inv_prec I e Ie) as (l1 & l3 & E & Is).
    { apply All, (WF e Ie). }
    apply in_split in Is. destruct Is as (a & b & ->).
    exists a, b, l3. rewrite E, <- app_assoc. reflexivity.
  - intros ord' B'. rewrite B in B'. now injection B'.
Qed.

(** C3, as the code has it.  When every edge target is a declared node
    id, the Sequencer returns (it neither raises nor loops) an order, and
    nothing else with it: no separate signal.  The order is as long as the
    number of distinct declared ids exactly when it holds every declared
    id, so a caller can tell a partial order by its length.  When some
    edge target is not a declared id, the Sequencer raises [KeyError]. *)
Theorem partial_order_or_key_error (nodes : list node) (es : list edge) :
  ((forall e, In e es -> In (target e) (ids nodes)) ->
   exists ord,
     build nodes es = Ok ord
     /\ List.length ord <= List.length (first_occurrences K_eq_dec [] (ids nodes))
     /\ (List.length ord = List.length (first_occurrences K_eq_dec [] (ids nodes))
         <-> forall v, In v (ids nodes) -> In v ord))
  /\ (forall e, In e es -> ~ In (target e) (ids nodes) ->
      exists k, build nodes es = KeyError k).
Proof.
  split.
  - intros Ht.
    destruct (build_execution_order_run K_eq_dec nodes es Ht) as (ord & deg & rest & B & I & _).
    assert (N : NoDup ord) by (pose proof (inv_nodup I) as N; now rewrite app_nil_r in N).
    assert (Sub : incl ord (first_occurrences K_eq_dec [] (ids nodes))).
    { intros v Iv. apply first_occurrences_In. split; [|simpl; tauto].
      apply (inv_keys I). eapply get_Some_keys.
      apply (inv_ready I). rewrite app_nil_r. exact Iv. }
    exists ord. split; [assumption|]. split; [now apply NoDup_incl_length|].
    split.
    + intros E v Iv.
      apply (@NoDup_length_incl K ord (first_occurrences K_eq_dec [] (ids nodes)) N);
        [lia|assumption|].
      apply first_occurrences_In. simpl. tauto.
    + intros All. apply Nat.le_antisymm; [now apply NoDup_incl_length|].
      apply NoDup_incl_length; [apply first_occurrences_NoDup|].
      intros v Iv. apply All. now apply first_occurrences_In in Iv.
  - intros e Ie Ne. unfold build_execution_order.
    destruct (@add_edges_raises K K_eq_dec es defaultdict_list
                (init_in_degree K_eq_dec nodes) e Ie) as [k A].
    + now rewrite init_in_degree_keys.
    + rewrite A. simpl. eauto.
Qed.

(** C4, as the code has it.  The ready queue is first-in-first-out: from
    any state, the loop emits what the queue holds, in queue order, before
    anything it enqueues later.  The queue is seeded with the ids no edge
    points to, in the key order of [in_degree], which is the order in
    which the ids first occur in the payload's node list (not an order by
    id value); so every returned order starts with them. *)
Theorem fifo_seeded_in_payload_order :
  (forall fuel (st st' : @state K),
     while_queue K_eq_dec fuel st = Ok st' ->
     exists rest, order st' = order st ++ queue st ++ rest)
  /\ (forall (nodes : list node) (es : list edge) ord,
        build nodes es = Ok ord ->
        exists rest, ord = ready_initially K_eq_dec nodes es ++ rest).
Proof.
  split; [apply while_queue_fifo|].
  intros nodes es ord B.
  destruct (build_execution_order_run K_eq_dec nodes es) as (ord' & deg & rest & B' & _ & E).
  { eapply build_execution_order_targets; eassumption. }
  rewrite B in B'. injection B' as <-. eauto.
Qed.

End SequencerClaims.

(* ================================================================== *)
(** ** Facts about paths *)

Section PathFacts.
Import Paths.

Lemma length_append (a b : string) :
  String.length (a ++ b) = String.length a + String.length b.
Proof. induction a as [|c a IH]; simpl; [reflexivity|now rewrite IH]. Qed.

Lemma join2_length (a b : string) :
  startswith b "/" = false ->
  String.length a + String.length b <= String.length (join2 a b)
  /\ String.length (join2 a b) <= String.length a + String.length b + 1.
Proof.
  intros S. unfold join2. rewrite S.
  destruct (String.eqb a "" || endswith a "/");
    rewrite ?length_append; simpl; lia.
Qed.

Lemma artifact_paths_differ (d : string) :
  join d ["model.pkl"%string] <> Predict.model_path d
  /\ join d ["label_encoder.pkl"%string] <> Predict.encoder_path d.
Proof.
  unfold Predict.model_path, Predict.encoder_path, join. simpl.
  pose proof (join2_length d "uploads" eq_refl) as [U _].
  pose proof (join2_length d "model.pkl" eq_refl) as [_ M1].
  pose proof (join2_length d "label_encoder.pkl" eq_refl) as [_ E1].
  pose proof (join2_length (join2 d "uploads") "model.pkl" eq_refl) as [M2 _].
  pose proof (join2_length (join2 d "uploads") "label_encoder.pkl" eq_refl) as [E2 _].
  simpl in *.
  split; intros E; apply (f_equal String.length) in E; lia.
Qed.

End PathFacts.

(* ================================================================== *)
(** ** Facts about the Dataset Loader *)

Section LoaderFacts.
Import Paths FS Dataset.

Lemma scan_class_spec (class_dir label : string) (files : list string) :
  forall ps ls,
  Engine.scan_class class_dir label files ps ls
  = (ps ++ map fst (class_samples class_dir label files),
     ls ++ map snd (class_samples class_dir label files)).
Proof.
  unfold class_samples.
  induction files as [|file files IH]; intros ps ls;
    cbn [Engine.scan_class filter].
  - simpl. now rewrite !app_nil_r.
  - destruct (endswith_any (lower file) Engine.image_extensions).
    + rewrite IH. cbn [map fst snd]. rewrite <- !app_assoc. reflexivity.
    + apply IH.
Qed.

Lemma isdir_listdir (fs0 : filesystem) (p : string) :
  isdir fs0 p = match listdir fs0 p with Some _ => true | None => false end.
Proof.
  unfold isdir, listdir.
  destruct (Dict.get string_dec p fs0) as [[|l]|]; reflexivity.
Qed.

Lemma scan_root_spec (fs0 : filesystem) (image_dir : string) (entries : list string) :
  forall ps ls,
  Engine.scan_root fs0 image_dir entries ps ls
  = inr (ps ++ map fst (root_samples fs0 image_dir entries),
         ls ++ map snd (root_samples fs0 image_dir entries)).
Proof.
  induction entries as [|label entries IH]; intros ps ls;
    cbn [Engine.scan_root root_samples flat_map].
  - simpl. now rewrite !app_nil_r.
  - rewrite isdir_listdir.
    destruct (listdir fs0 (join image_dir [label])) as [files|].
    + rewrite scan_class_spec, IH. unfold root_samples.
      rewrite !map_app, <- !app_assoc. reflexivity.
    + rewrite IH. reflexivity.
Qed.

Lemma load_dataset_spec (fs0 : filesystem) (image_dir : string) :
  Engine.load_dataset fs0 image_dir
  = match listdir fs0 image_dir with
    | Some entries =>
        inr (map fst (root_samples fs0 image_dir entries),
             map snd (root_samples fs0 image_dir entries))
    | None => inl (Effect.ExOSError (listdir_error fs0 image_dir) image_dir)
    end.
Proof.
  unfold Engine.load_dataset.
  destruct (listdir fs0 image_dir); [|reflexivity].
  now rewrite scan_root_spec.
Qed.

Lemma root_samples_In (fs0 : filesystem) (image_dir : string) entries p l :
  listdir fs0 image_dir = Some entries ->
  (In (p, l) (root_samples fs0 image_dir entries) <-> sample_of fs0 image_dir p l).
Proof.
  intros Hl. unfold root_samples, sample_of. rewrite in_flat_map. split.
  - intros (label & Il & I).
    destruct (listdir fs0 (join image_dir [label])) as [files|] eqn:Lc; [|destruct I].
    unfold class_samples in I. apply in_map_iff in I.
    destruct I as (file & [= <- <-] & If). apply filter_In in If.
    exists entries, files, file. tauto.
  - intros (entries' & files & file & He & Il & Hf & If & Hx & ->).
    rewrite Hl in He. injection He as <-.
    exists l. split; [assumption|]. rewrite Hf.
    unfold class_samples. apply in_map_iff. exists file. split; [reflexivity|].
    apply filter_In. tauto.
Qed.

Lemma combine_fst_snd {A B} (l : list (A * B)) :
  combine (map fst l) (map snd l) = l.
Proof. induction l as [|[a b] l IH]; simpl; [reflexivity|now rewrite IH]. Qed.

End LoaderFacts.

(* ================================================================== *)
(** ** Facts about [run_pipeline] *)

Section EngineFacts.
Import Paths FS Effect.
Context {K : Type}.
Variable K_eq_dec : forall x y : K, {x = y} + {x <> y}.
Variable repr : K -> string.
Variable L : Engine.library.
Local Abbreviation world := (@Engine.world K L).
Local Abbreviation logged := (@Engine.logged K L).
Local Abbreviation label_of := (Engine.label_of K_eq_dec).
Local Abbreviation Visiting := (@Engine.Visiting K).

Lemma try_dump_Some (fs0 fs1 : filesystem) (p : string) :
  try_dump fs0 p = Some fs1 -> fs1 = dump fs0 p.
Proof.
  unfold try_dump. destruct (Dict.get string_dec p fs0) as [[|l]|]; congruence.
Qed.

Lemma logged_nil (w : world) : logged w [] = w.
Proof. destruct w. unfold Engine.logged. simpl. now rewrite app_nil_r. Qed.

Lemma logged_logged (w : world) a b : logged (logged w a) b = logged w (a ++ b).
Proof. unfold Engine.logged. simpl. now rewrite app_assoc. Qed.

(** the stage walk, when a training node is met *)
Lemma walk_stages_found d (pre : list K) x post : forall stages (w : world),
  label_of d x = "Model Training"%string ->
  (forall y, In y pre -> label_of d y <> "Model Training"%string) ->
  Engine.walk_stages K_eq_dec L d (pre ++ x :: post) stages w
  = (inr (stages ++ map (label_of d) pre ++ ["Model Training"%string], true),
     logged w (map Visiting (map (label_of d) pre ++ ["Model Training"%string]))).
Proof.
  induction pre as [|y pre IH]; intros stages w Hx Hpre;
    cbn [app Engine.walk_stages map].
  - unfold mbind, Engine.print_stderr, modify. rewrite Hx. reflexivity.
  - unfold mbind, Engine.print_stderr, modify.
    destruct (String.eqb_spec (label_of d y) "Model Training") as [E|N].
    + exfalso. apply (Hpre y); [now left|assumption].
    + rewrite IH by (auto; intros; apply Hpre; now right).
      rewrite logged_logged, <- app_assoc. reflexivity.
Qed.

(** the stage walk, when no training node is met *)
Lemma walk_stages_not_found d (ord : list K) : forall stages (w : world),
  (forall y, In y ord -> label_of d y <> "Model Training"%string) ->
  Engine.walk_stages K_eq_dec L d ord stages w
  = (inr (stages ++ map (label_of d) ord, false),
     logged w (map Visiting (map (label_of d) ord))).
Proof.
  induction ord as [|y ord IH]; intros stages w H; cbn [Engine.walk_stages map].
  - unfold ret. now rewrite app_nil_r, logged_nil.
  - unfold mbind, Engine.print_stderr, modify.
    destruct (String.eqb_spec (label_of d y) "Model Training") as [E|N].
    + exfalso. apply (H y); [now left|assumption].
    + rewrite IH by (intros; apply H; now right).
      rewrite logged_logged, <- app_assoc. reflexivity.
Qed.

(** the stage walk only writes to stderr, and does not raise *)
Lemma walk_stages_frame d (ord : list K) : forall stages (w : world),
  exists r log, Engine.walk_stages K_eq_dec L d ord stages w = (inr r, logged w log).
Proof.
  induction ord as [|y ord IH]; intros stages w; cbn [Engine.walk_stages].
  - exists (stages, false), []. unfold ret. now rewrite logged_nil.
  - unfold mbind, Engine.print_stderr, modify.
    destruct (String.eqb (label_of d y) "Model Training").
    + eexists _, _. reflexivity.
    + destruct (IH (stages ++ [label_of d y]) (logged w [Visiting (label_of d y)]))
        as (r & log & ->).
      rewrite logged_logged. eexists _, _. reflexivity.
Qed.

(** feature extraction only writes to stderr, and does not raise *)
Lemma extract_all_frame (samples : list (string * string)) : forall X y (w : world),
  exists r log, Engine.extract_all L samples X y w = (inr r, logged w log).
Proof.
  induction samples as [|[p l] samples IH]; intros X y w; cbn [Engine.extract_all].
  - exists (X, y), []. unfold ret. now rewrite logged_nil.
  - unfold mbind, Engine.extract_features.
    destruct (Engine.open_image L p) as [f|e].
    + unfold ret. apply IH.
    + unfold mbind, Engine.print_stderr, modify, ret.
      destruct (IH X y (logged w [Engine.ErrorProcessingImage p e])) as (r & log & ->).
      rewrite logged_logged. eexists _, _. reflexivity.
Qed.

(** What a call of [run_pipeline] leaves behind.  Either nothing on
    stdout and nothing on disk (it returned an error record, or raised
    before the second [joblib.dump]); or nothing on stdout and the model
    file on disk (the second [joblib.dump] raised); or one success record
    and the two artifact files. *)
Lemma run_pipeline_cases project_root image_dir nodes edges (w : world) :
  let (r, w') := Engine.run_pipeline K_eq_dec repr L project_root image_dir nodes edges w in
  (Engine.stdout w' = Engine.stdout w /\ r <> inr None /\ Engine.fs w' = Engine.fs w)
  \/ (Engine.stdout w' = Engine.stdout w
      /\ r = inl (ExOSError EISDIR (join project_root ["label_encoder.pkl"%string]))
      /\ Engine.fs w' = dump (Engine.fs w) (join project_root ["model.pkl"%string]))
  \/ (r = inr None
      /\ Engine.fs w' = dump (dump (Engine.fs w) (join project_root ["model.pkl"%string]))
                             (join project_root ["label_encoder.pkl"%string])
      /\ exists accuracy stages,
           Engine.stdout w' = Engine.stdout w ++
             [Engine.Success "Pipeline executed and model trained successfully!"
                "RandomForestClassifier" accuracy stages "/uploads/model.pkl"]).
Proof.
  unfold Engine.run_pipeline.
  cbv [mbind Engine.print_stderr Engine.get_fs get_world modify ret lift raise
       Engine.lift_outcome Engine.joblib_dump Engine.print_stdout].
  destruct (Engine.load_dataset _ image_dir) as [e|[ps ls]];
    [left; split; [reflexivity|split; [discriminate|reflexivity]]|].
  destruct (Engine.is_empty ps);
    [left; split; [reflexivity|split; [discriminate|reflexivity]]|].
  destruct (build_execution_order K_eq_dec nodes edges) as [ord|k|];
    [|left; split; [reflexivity|split; [discriminate|reflexivity]]..].
  match goal with |- context [Engine.walk_stages _ _ ?d ?o ?s ?w1] =>
    destruct (walk_stages_frame d o s w1) as ([stages found] & log1 & ->) end.
  destruct found; cbn [negb];
    [|left; split; [reflexivity|split; [discriminate|reflexivity]]].
  match goal with |- context [Engine.extract_all _ ?sm ?X ?y ?w1] =>
    destruct (extract_all_frame sm X y w1) as ([X' y'] & log2 & ->) end.
  destruct (Engine.is_empty X' || Engine.is_empty y');
    [left; split; [reflexivity|split; [discriminate|reflexivity]]|].
  destruct (Engine.fit_transform L y') as [e|[le y_encoded]];
    [left; split; [reflexivity|split; [discriminate|reflexivity]]|].
  destruct (Engine.train_test_split L X' y_encoded) as [e|sp];
    [left; split; [reflexivity|split; [discriminate|reflexivity]]|].
  destruct (Engine.fit L sp) as [e|clf];
    [left; split; [reflexivity|split; [discriminate|reflexivity]]|].
  destruct (Engine.score L clf sp) as [e|accuracy];
    [left; split; [reflexivity|split; [discriminate|reflexivity]]|].
  cbn [Engine.fs Engine.logged].
  destruct (try_dump (Engine.fs w) (join project_root ["model.pkl"%string])) as [fs1|] eqn:D1;
    [|left; split; [reflexivity|split; [discriminate|reflexivity]]].
  apply try_dump_Some in D1. subst fs1. cbn [Engine.fs].
  destruct (try_dump _ (join project_root ["label_encoder.pkl"%string])) as [fs2|] eqn:D2;
    [|right; left; repeat split; reflexivity].
  apply try_dump_Some in D2. subst fs2.
  right. right. split; [reflexivity|]. split; [reflexivity|].
  exists accuracy, stages. reflexivity.
Qed.

End EngineFacts.

(* ================================================================== *)
(** ** Acyclic graphs by ranking *)

Section Ranking.
Context {K : Type}.

Lemma ranked_acyclic (rank : K -> nat) (es : list (@Sequencer.edge K)) :
  (forall e, In e es -> rank (source e) < rank (target e)) ->
  acyclic es.
Proof.
  intros H.
  assert (Up : forall x y, clos_trans K (edge_rel es) x y -> rank x < rank y).
  { intros x y C. induction C as [x y E|x y z _ IH1 _ IH2].
    - apply (H _ E).
    - lia. }
  intros x C. apply Up in C. lia.
Qed.

End Ranking.

(* ================================================================== *)
(** ** The Sequencer on concrete graphs *)

Section SequencerExamples.
Import Scenario.
Open Scope string_scope.

Example abc_order :
  build_execution_order string_dec abc_nodes abc_edges = Ok ["A"; "B"; "C"].
Proof. reflexivity. Qed.

Example cyclic_order :
  build_execution_order string_dec cyclic_nodes cyclic_edges = Ok ["C"].
Proof. reflexivity. Qed.

Lemma abc_well_formed : well_formed abc_nodes abc_edges.
Proof.
  intros e [<-|[<-|[]]]; simpl; tauto.
Qed.

Lemma abc_acyclic : acyclic abc_edges.
Proof.
  apply (ranked_acyclic abc_rank).
  intros e [<-|[<-|[]]]; vm_compute; lia.
Qed.

(** C9 at the graph with the cycle A -> B -> A beside C: the order is
    [C] alone. *)
Lemma order_declared_and_duplicate_free_witness :
  build_execution_order string_dec cyclic_nodes cyclic_edges = Ok ["C"]
  /\ (forall v, In v ["C"] -> In v (ids cyclic_nodes)) /\ NoDup ["C"].
Proof.
  split; [reflexivity|].
  apply (order_declared_and_duplicate_free string_dec cyclic_nodes cyclic_edges).
  reflexivity.
Defined.

(** C5 at the chain A -> B -> C. *)
Lemma acyclic_graph_fully_ordered_witness :
  well_formed abc_nodes abc_edges /\ acyclic abc_edges
  /\ exists ord,
       build_execution_order string_dec abc_nodes abc_edges = Ok ord
       /\ (forall v, In v (ids abc_nodes) -> count_occ string_dec ord v = 1)
       /\ (forall v, In v ord -> In v (ids abc_nodes))
       /\ (forall e, In e abc_edges -> before (source e) (target e) ord)
       /\ (forall ord', build_execution_order string_dec abc_nodes abc_edges = Ok ord'
             -> ord' = ord).
Proof.
  split; [exact abc_well_formed|]. split; [exact abc_acyclic|].
  apply (acyclic_graph_fully_ordered string_dec abc_nodes abc_edges).
  - exact abc_well_formed.
  - exact abc_acyclic.
Defined.

(** C3, as the claim states it, fails: an edge into an undeclared id makes
    the Sequencer raise [KeyError] instead of returning a partial order. *)
Lemma sequencer_raises_on_undeclared_target :
  (exists e, In e dangling_edges /\ ~ In (target e) (ids dangling_nodes))
  /\ build_execution_order string_dec dangling_nodes dangling_edges = KeyError "B"
  /\ ~ (exists ord, build_execution_order string_dec dangling_nodes dangling_edges = Ok ord).
Proof.
  split; [|split].
  - exists {| source := "A"; target := "B" |}. split; [now left|].
    simpl. intros [E|[]]. discriminate E.
  - reflexivity.
  - intros [ord E]. discriminate E.
Qed.

(** C3 as amended, at the graph with a cycle: an order shorter than the
    node count comes back, and its length tells. *)
Lemma partial_order_or_key_error_witness :
  (forall e, In e cyclic_edges -> In (target e) (ids cyclic_nodes))
  /\ exists ord,
       build_execution_order string_dec cyclic_nodes cyclic_edges = Ok ord
       /\ List.length ord <= List.length (first_occurrences string_dec [] (ids cyclic_nodes))
       /\ (List.length ord = List.length (first_occurrences string_dec [] (ids cyclic_nodes))
           <-> forall v, In v (ids cyclic_nodes) -> In v ord).
Proof.
  assert (T : forall e, In e cyclic_edges -> In (target e) (ids cyclic_nodes)).
  { intros e [<-|[<-|[]]]; simpl; tauto. }
  split; [exact T|].
  exact (proj1 (partial_order_or_key_error string_dec cyclic_nodes cyclic_edges) T).
Defined.

(** C4, as the claim states it, fails: with the ids 2 and 1 declared in
    that order, the queue is seeded [2; 1], which is not ascending. *)
Lemma seed_is_not_ascending :
  initial_queue (init_in_degree Z.eq_dec descending_nodes) = [2; 1]%Z
  /\ build_execution_order Z.eq_dec descending_nodes [] = Ok [2; 1]%Z
  /\ ~ (2 <= 1)%Z.
Proof.
  split; [reflexivity|]. split; [reflexivity|]. lia.
Qed.

(** C4 as amended, at the chain A -> B -> C: the order starts with the
    one id no edge points to. *)
Lemma fifo_seeded_in_payload_order_witness :
  build_execution_order string_dec abc_nodes abc_edges = Ok ["A"; "B"; "C"]
  /\ exists rest,
       ["A"; "B"; "C"] = (ready_initially string_dec abc_nodes abc_edges ++ rest)%list.
Proof.
  split; [reflexivity|].
  apply (proj2 (fifo_seeded_in_payload_order string_dec) abc_nodes abc_edges).
  reflexivity.
Defined.

End SequencerExamples.

(* ================================================================== *)
(** ** Properties of the engine and of the prediction script *)

Section EngineClaims.
Import Paths FS Effect Dataset.
Context {K : Type}.
Variable K_eq_dec : forall x y : K, {x = y} + {x <> y}.
Variable repr : K -> string.
Variable L : Engine.library.
Local Abbreviation world := (@Engine.world K L).
Local Abbreviation run_pipeline := (Engine.run_pipeline K_eq_dec repr L).


(** C10.  On every run of [run_pipeline] that succeeds (it returns
    nothing, or equally it writes to stdout), the one record written is
    the success record and its [downloadLink] is "/uploads/model.pkl",
    while the model file was written to [model.pkl] in [project_root],
    the directory of the engine script, whatever that directory is. *)
Theorem download_link_is_constant
  (project_root image_dir : string) nodes edges (w w' : world) r :
  run_pipeline project_root image_dir nodes edges w = (r, w') ->
  r = inr None \/ Engine.stdout w' <> Engine.stdout w ->
  (exists accuracy stages,
     Engine.stdout w' = Engine.stdout w ++
       [Engine.Success "Pipeline executed and model trained successfully!"
          "RandomForestClassifier" accuracy stages "/uploads/model.pkl"])
  /\ exists_ (Engine.fs w') (join project_root ["model.pkl"%string]) = true
  /\ exists_ (Engine.fs w') (join project_root ["label_encoder.pkl"%string]) = true.
Proof.
  intros Run Ok.
  pose proof (run_pipeline_cases K_eq_dec repr L project_root image_dir nodes edges w) as C.
  fold run_pipeline in C. rewrite Run in C.
  destruct C as [(So & Nr & _)|[(So & Er & _)|(_ & Fs & Out)]].
  - exfalso. destruct Ok as [->|N]; [now apply Nr|now apply N].
  - exfalso. destruct Ok as [->|N]; [discriminate Er|now apply N].
  - split; [exact Out|]. rewrite Fs. unfold exists_, dump. split.
    + destruct (string_dec (join project_root ["label_encoder.pkl"%string])
                           (join project_root ["model.pkl"%string])) as [E|N].
      * rewrite E. now rewrite get_set_same.
      * rewrite get_set_other by assumption. now rewrite get_set_same.
    + now rewrite get_set_same.
Qed.

End EngineClaims.

Section EngineExamples.
Import Scenario Paths FS Effect Dataset.
Open Scope string_scope.
Local Abbreviation toy := (toy_engine (fun _ => true)).
Local Abbreviation unreadable := (toy_engine (fun _ => false)).
Local Abbreviation engine_main L := (Engine.main string_dec repr_string L "/app/ml-backend").


(** C10 at a run that succeeds: the link names [/uploads/model.pkl], the
    file is [/app/ml-backend/model.pkl]. *)
Lemma download_link_is_constant_witness :
  let run := Engine.run_pipeline string_dec repr_string toy "/app/ml-backend" "root"
               abc_nodes abc_edges (engine_start toy tree_fs) in
  fst run = inr None
  /\ (exists accuracy stages,
        Engine.stdout (snd run) = ([] ++
          [Engine.Success "Pipeline executed and model trained successfully!"
             "RandomForestClassifier" accuracy stages "/uploads/model.pkl"])%list)
  /\ exists_ (Engine.fs (snd run)) "/app/ml-backend/model.pkl" = true
  /\ exists_ (Engine.fs (snd run)) "/app/ml-backend/label_encoder.pkl" = true.
Proof.
  intros run. split; [reflexivity|].
  apply (download_link_is_constant string_dec repr_string toy
           "/app/ml-backend" "root" abc_nodes abc_edges
           (engine_start toy tree_fs) (snd run) (fst run)).
  - apply surjective_pairing.
  - left. reflexivity.
Defined.

End EngineExamples.

Section ScriptClaims.
Import Scenario Paths FS Effect Dataset.
Open Scope string_scope.
Local Abbreviation toy := (toy_engine (fun _ => true)).
Local Abbreviation unreadable := (toy_engine (fun _ => false)).
Local Abbreviation engine_main L := (Engine.main string_dec repr_string L "/app/ml-backend").
Local Abbreviation engine_run L :=
  (Engine.run_pipeline string_dec repr_string L "/app/ml-backend" "root").

(** C6.  The Stage Reachability Gate walks the order from its head,
    appends the label of each node it visits to the stages log, and stops
    at the first node labelled "Model Training": the nodes after it are
    not visited.  On A(Load) -> B(Model Training) -> C(Export) the log is
    [Load; Model Training], the training stage is found, and C is not
    visited. *)
Theorem gate_stops_at_first_training_node :
  (forall (K : Type) (K_eq_dec : forall x y : K, {x = y} + {x <> y})
          (L : Engine.library) d (pre : list K) x post stages
          (w : @Engine.world K L),
     Engine.label_of K_eq_dec d x = "Model Training" ->
     (forall y, In y pre -> Engine.label_of K_eq_dec d y <> "Model Training") ->
     Engine.walk_stages K_eq_dec L d (pre ++ x :: post) stages w
     = (inr (stages ++ map (Engine.label_of K_eq_dec d) pre ++ ["Model Training"], true)%list,
        Engine.logged w
          (map (@Engine.Visiting K)
               (map (Engine.label_of K_eq_dec d) pre ++ ["Model Training"])%list)))
  /\ build_execution_order string_dec abc_nodes abc_edges = Ok ["A"; "B"; "C"]
  /\ Engine.walk_stages string_dec toy (Engine.id_to_label_of string_dec abc_nodes)
       ["A"; "B"; "C"] [] (engine_start toy tree_fs)
     = (inr (["Load"; "Model Training"], true),
        Engine.logged (engine_start toy tree_fs)
          [Engine.Visiting "Load"; Engine.Visiting "Model Training"]).
Proof.
  split; [|split; reflexivity].
  intros K K_eq_dec L d pre x post stages w Hx Hpre.
  now apply walk_stages_found.
Qed.

(** C6 at the chain A -> B -> C, split after A. *)
Lemma gate_stops_at_first_training_node_witness :
  let d := Engine.id_to_label_of string_dec abc_nodes in
  Engine.label_of string_dec d "B" = "Model Training"
  /\ (forall y, In y ["A"] -> Engine.label_of string_dec d y <> "Model Training")
  /\ Engine.walk_stages string_dec toy d (["A"] ++ "B" :: ["C"])%list []
       (engine_start toy tree_fs)
     = (inr ([] ++ map (Engine.label_of string_dec d) ["A"] ++ ["Model Training"], true)%list,
        Engine.logged (engine_start toy tree_fs)
          (map (@Engine.Visiting string)
               (map (Engine.label_of string_dec d) ["A"] ++ ["Model Training"])%list)).
Proof.
  intros d.
  assert (N : forall y, In y ["A"] -> Engine.label_of string_dec d y <> "Model Training").
  { intros y [<-|[]]. vm_compute. discriminate. }
  split; [reflexivity|]. split; [exact N|].
  apply (proj1 gate_stops_at_first_training_node string string_dec toy d
           ["A"] "B" ["C"] [] (engine_start toy tree_fs)).
  - reflexivity.
  - exact N.
Defined.

(** C8, as the code has it.  Given a root directory that can be listed,
    the Dataset Loader returns as many paths as labels, and the (path,
    label) pairs are exactly these: [label] is an immediate subdirectory
    of the root and [path] is an entry of it, a file or a directory
    alike since the loader does not test the kind of an entry, whose
    name, in lower case, ends in .png, .jpg, .jpeg or .bmp; entries of
    the root that are not directories add nothing.  On
    root/cat/{a.jpg,b.png}, root/dog/{c.jpeg} and the stray
    root/readme.txt the Dataset is three samples labelled cat, cat, dog. *)
Theorem dataset_loader_contract :
  (forall fs0 image_dir entries,
     listdir fs0 image_dir = Some entries ->
     exists image_paths labels,
       Engine.load_dataset fs0 image_dir = inr (image_paths, labels)
       /\ List.length image_paths = List.length labels
       /\ forall path label,
            In (path, label) (combine image_paths labels)
            <-> sample_of fs0 image_dir path label)
  /\ Engine.load_dataset tree_fs "root"
     = inr (["root/cat/a.jpg"; "root/cat/b.png"; "root/dog/c.jpeg"],
            ["cat"; "cat"; "dog"])
  /\ endswith_any (lower "PHOTO.JPG") Engine.image_extensions = true
  /\ endswith_any (lower "readme.txt") Engine.image_extensions = false.
Proof.
  split; [|repeat split; reflexivity].
  intros fs0 image_dir entries Hl.
  exists (map fst (root_samples fs0 image_dir entries)),
         (map snd (root_samples fs0 image_dir entries)).
  split; [now rewrite load_dataset_spec, Hl|].
  split; [now rewrite !length_map|].
  intros path label. rewrite combine_fst_snd. now apply root_samples_In.
Qed.

(** C8, as the claim states it, fails: a subdirectory of a class
    directory whose name ends in .jpg is taken as a sample, though it is
    not a file. *)
Lemma subdirectory_named_like_an_image_is_a_sample :
  isdir nested_fs "root/cat/x.jpg" = true
  /\ Engine.load_dataset nested_fs "root" = inr (["root/cat/x.jpg"], ["cat"]).
Proof. split; reflexivity. Qed.

(** C8 at the tree of the scenario. *)
Lemma dataset_loader_contract_witness :
  listdir tree_fs "root" = Some ["cat"; "dog"; "readme.txt"]
  /\ exists image_paths labels,
       Engine.load_dataset tree_fs "root" = inr (image_paths, labels)
       /\ List.length image_paths = List.length labels
       /\ forall path label,
            In (path, label) (combine image_paths labels)
            <-> sample_of tree_fs "root" path label.
Proof.
  split; [reflexivity|].
  apply (proj1 dataset_loader_contract tree_fs "root" ["cat"; "dog"; "readme.txt"]).
  reflexivity.
Defined.

(** C1, where the code departs from it.  [run_pipeline] builds the error
    record of the empty dataset, of the unconnected training node and of
    the failed extraction, and returns it; [main] drops what
    [run_pipeline] returns, so in each of the three runs stdout stays
    empty.  Only the success record, the missing folder and a caught
    exception reach stdout. *)
Theorem returned_error_records_never_reach_stdout :
  (fst (engine_run toy abc_nodes abc_edges (engine_start toy empty_fs))
   = inr (Some (Engine.Error "No valid images found." None))
   /\ Engine.stdout (snd (engine_main toy (inr (abc_payload "root"))
                            (engine_start toy empty_fs))) = [])
  /\ (fst (engine_run toy ac_nodes ac_edges (engine_start toy tree_fs))
      = inr (Some (Engine.Error "Model Training node not connected in the pipeline." None))
      /\ Engine.stdout (snd (engine_main toy (inr (ac_payload "root"))
                               (engine_start toy tree_fs))) = [])
  /\ (fst (engine_run unreadable abc_nodes abc_edges (engine_start unreadable tree_fs))
      = inr (Some (Engine.Error "Feature extraction failed or no images were processed." None))
      /\ Engine.stdout (snd (engine_main unreadable (inr (abc_payload "root"))
                               (engine_start unreadable tree_fs))) = [])
  /\ Engine.stdout (snd (engine_main toy (inr (abc_payload "root"))
                           (engine_start toy tree_fs)))
     = [Engine.Success (L:=toy) "Pipeline executed and model trained successfully!"
          "RandomForestClassifier" 1 ["Load"; "Model Training"] "/uploads/model.pkl"]
  /\ Engine.stdout (snd (engine_main toy (inr (abc_payload "nowhere"))
                           (engine_start toy tree_fs)))
     = [Engine.Error "Extracted image folder not found." None].
Proof. repeat split; reflexivity. Qed.

(** C2, where the code departs from it.  The engine writes [model.pkl]
    and [label_encoder.pkl] into the directory of its script; the
    prediction script, in the same directory, looks for them under
    [uploads/].  The two pairs of paths differ for every directory, and
    after a training run that succeeded the prediction script reports
    the model file as missing. *)
Theorem inference_reads_where_training_does_not_write :
  (forall d,
     join d ["model.pkl"] <> Predict.model_path d
     /\ join d ["label_encoder.pkl"] <> Predict.encoder_path d)
  /\ (let trained := snd (engine_main toy (inr (abc_payload "root"))
                            (engine_start toy tree_fs)) in
      Engine.stdout trained
      = [Engine.Success (L:=toy) "Pipeline executed and model trained successfully!"
           "RandomForestClassifier" 1 ["Load"; "Model Training"] "/uploads/model.pkl"]
      /\ exists_ (Engine.fs trained) "/app/ml-backend/model.pkl" = true
      /\ exists_ (Engine.fs trained) "/app/ml-backend/label_encoder.pkl" = true
      /\ exists_ (Engine.fs trained) (Predict.model_path "/app/ml-backend") = false
      /\ Predict.stdout
           (snd (Predict.main toy_predict "/app/ml-backend"
                   (inr (Some "root/cat/a.jpg"))
                   (predict_start (Engine.fs trained))))
         = [Predict.Failure " Trained model file (uploads/model.pkl) not found." None]).
Proof.
  split; [exact artifact_paths_differ|].
  repeat split; reflexivity.
Qed.

End ScriptClaims.

(* ================================================================== *)
(** ** More about the Sequencer *)

Section SequencerMore.
Context {K : Type}.
Variable K_eq_dec : forall x y : K, {x = y} + {x <> y}.
Local Abbreviation node := (@Sequencer.node K).
Local Abbreviation edge := (@Sequencer.edge K).
Local Abbreviation build := (build_execution_order K_eq_dec).
Local Abbreviation pos := (position K_eq_dec).

Lemma add_edges_never_diverges (es : list edge) :
  forall (g : @adjacency K) (deg : @degrees K),
  add_edges K_eq_dec es (g, deg) <> Diverge.
Proof.
  induction es as [|e es IH]; intros g deg; simpl; [discriminate|].
  destruct (Dict.get K_eq_dec (target e) deg) as [d|]; simpl; [apply IH|discriminate].
Qed.

Lemma add_edges_key_error (es : list edge) :
  forall (g : @adjacency K) (deg : @degrees K) k,
  add_edges K_eq_dec es (g, deg) = KeyError k ->
  exists es1 e es2,
    es = es1 ++ e :: es2 /\ target e = k /\ ~ In k (Dict.keys deg)
    /\ Forall (fun e' => In (target e') (Dict.keys deg)) es1.
Proof.
  induction es as [|e es IH]; intros g deg k H; simpl in H; [discriminate|].
  destruct (Dict.get K_eq_dec (target e) deg) as [d|] eqn:G; simpl in H.
  - assert (Kp : In (target e) (Dict.keys deg)) by (eapply get_Some_keys; eassumption).
    apply IH in H. destruct H as (es1 & e0 & es2 & -> & T & N & F).
    rewrite keys_set_present in N, F by assumption.
    exists (e :: es1), e0, es2. repeat split; auto.
  - injection H as <-. exists [], e, es. repeat split; auto.
    intros I. apply keys_get_Some with (K_eq_dec := K_eq_dec) in I.
    destruct I as [v I]. congruence.
Qed.

Lemma while_queue_fuel_mono : forall fuel fuel' (st st' : @state K),
  while_queue K_eq_dec fuel st = Ok st' -> fuel <= fuel' ->
  while_queue K_eq_dec fuel' st = Ok st'.
Proof.
  induction fuel as [|fuel IH]; intros fuel' [g deg q ord] st' H Le.
  - simpl in H. destruct q; [|discriminate].
    destruct fuel'; simpl; assumption.
  - destruct fuel' as [|fuel']; [lia|]. simpl in *.
    destruct q as [|nid q]; [assumption|].
    destruct (dd_getitem K_eq_dec nid g) as [nbrs g1].
    destruct (visit_neighbors K_eq_dec nbrs deg q) as [[deg' q']| |];
      simpl in *; try discriminate.
    apply IH with (fuel' := fuel') in H; [assumption|lia].
Qed.

(** X1.  The [while] loop of the Sequencer ends: the function never runs
    out of iterations, and the loop run with any bound of at least the
    number of nodes ends in the state whose order the function returns. *)
Theorem sequencer_terminates (nodes : list node) (es : list edge) :
  build nodes es <> Diverge
  /\ forall g deg fuel,
       add_edges K_eq_dec es (defaultdict_list, init_in_degree K_eq_dec nodes)
         = Ok (g, deg) ->
       List.length nodes <= fuel ->
       exists st',
         while_queue K_eq_dec fuel
           {| graph := g; in_degree := deg; queue := initial_queue deg; order := [] |}
         = Ok st'
         /\ queue st' = []
         /\ build nodes es = Ok (order st').
Proof.
  split.
  - unfold build_execution_order.
    destruct (add_edges K_eq_dec es (defaultdict_list, init_in_degree K_eq_dec nodes))
      as [[g deg]|k|] eqn:A; simpl.
    + pose proof (add_edges_ok K_eq_dec es _ _ _ _ A) as (_ & _ & _ & Ht).
      destruct (build_execution_order_run K_eq_dec nodes es) as (ord & _ & _ & B & _).
      { intros e I. apply init_in_degree_keys with (K_eq_dec := K_eq_dec). now apply Ht. }
      unfold build_execution_order in B. rewrite A in B. simpl in B.
      rewrite B. discriminate.
    + discriminate.
    + exfalso. now apply add_edges_never_diverges in A.
  - intros g deg fuel A Le.
    pose proof (add_edges_ok K_eq_dec es _ _ _ _ A) as (Hk & Hg & Hd & Ht).
    assert (T : forall e, In e es -> In (target e) (ids nodes)).
    { intros e I. apply init_in_degree_keys with (K_eq_dec := K_eq_dec). now apply Ht. }
    destruct (init_in_degree_spec K_eq_dec nodes) as [Hk0 Hz0].
    assert (N : NoDup (Dict.keys deg)).
    { rewrite Hk, Hk0. apply first_occurrences_NoDup. }
    destruct (@while_queue_enough K K_eq_dec nodes es T (List.length nodes)
                {| graph := g; in_degree := deg; queue := initial_queue deg;
                   order := [] |}) as (st' & W & Q & _).
    + constructor; simpl.
      * intros v. rewrite Hk. apply init_in_degree_keys.
      * intros v [].
      * now apply initial_queue_NoDup.
      * intros v d G. rewrite Nat.add_0_r.
        destruct (Hd v d G) as (d0 & G0 & ->). rewrite (Hz0 v d0 G0). lia.
      * intros v. now apply initial_queue_In.
      * intros e _ [].
    + simpl. intros k. rewrite Hg. reflexivity.
    + simpl. lia.
    + exists st'. split; [eapply while_queue_fuel_mono; eassumption|].
      split; [assumption|].
      unfold build_execution_order. rewrite A. simpl. rewrite W. reflexivity.
Qed.

(** X2.  The Sequencer raises [KeyError] only for an edge whose target is
    not a declared node id, and the key is the target of the first such
    edge of the payload; the loop itself never raises. *)
Theorem key_error_names_first_undeclared_target (nodes : list node) (es : list edge) k :
  build nodes es = KeyError k ->
  exists es1 e es2,
    es = es1 ++ e :: es2 /\ target e = k /\ ~ In k (ids nodes)
    /\ Forall (fun e' => In (target e') (ids nodes)) es1.
Proof.
  unfold build_execution_order. intros B.
  destruct (add_edges K_eq_dec es (defaultdict_list, init_in_degree K_eq_dec nodes))
    as [[g deg]|k'|] eqn:A; simpl in B.
  - exfalso.
    pose proof (add_edges_ok K_eq_dec es _ _ _ _ A) as (_ & _ & _ & Ht).
    destruct (build_execution_order_run K_eq_dec nodes es) as (ord & _ & _ & B' & _).
    { intros e I. apply init_in_degree_keys with (K_eq_dec := K_eq_dec). now apply Ht. }
    unfold build_execution_order in B'. rewrite A in B'. simpl in B'.
    rewrite B' in B. discriminate.
  - injection B as ->.
    apply add_edges_key_error in A.
    destruct A as (es1 & e & es2 & E & T & N & F).
    exists es1, e, es2. split; [assumption|]. split; [assumption|].
    split.
    + intros I. apply N. now apply init_in_degree_keys.
    + eapply Forall_impl; [|exact F]. intros e'. apply init_in_degree_keys.
  - discriminate.
Qed.

Lemma position_app_in (s : K) (l1 r : list K) :
  In s l1 -> pos s (l1 ++ r) < List.length l1.
Proof.
  induction l1 as [|y l1 IH]; simpl; [tauto|].
  intros [->|I].
  - destruct (K_eq_dec s s); [lia|congruence].
  - destruct (K_eq_dec s y); [lia|]. apply IH in I. lia.
Qed.

Lemma position_app_notin (t : K) (l1 l2 : list K) :
  ~ In t l1 -> pos t (l1 ++ t :: l2) = List.length l1.
Proof.
  induction l1 as [|y l1 IH]; simpl; intros N.
  - destruct (K_eq_dec t t); [reflexivity|congruence].
  - destruct (K_eq_dec t y) as [->|_]; [tauto|]. rewrite IH; tauto.
Qed.

Lemma precedes_position (s t : K) (l : list K) :
  NoDup l -> precedes s t l -> pos s l < pos t l.
Proof.
  intros N (l1 & l2 & -> & I).
  rewrite position_app_notin.
  - now apply position_app_in.
  - apply NoDup_remove_2 in N. intros X. apply N, in_or_app. now left.
Qed.

Lemma precedes_In (s t : K) (l : list K) : precedes s t l -> In s l.
Proof. intros (l1 & l2 & -> & I). apply in_or_app. now left. Qed.

Lemma build_execution_order_invariant (nodes : list node) (es : list edge) ord :
  build nodes es = Ok ord ->
  exists deg, invariant K_eq_dec nodes es [] deg [] ord.
Proof.
  intros B.
  destruct (build_execution_order_run K_eq_dec nodes es) as (ord' & deg & _ & B' & I & _).
  { eapply build_execution_order_targets; eassumption. }
  rewrite B in B'. injection B' as <-. eauto.
Qed.

Lemma invariant_order_NoDup (nodes : list node) (es : list edge) deg ord :
  invariant K_eq_dec nodes es [] deg [] ord -> NoDup ord.
Proof. intros I. pose proof (inv_nodup I) as N. now rewrite app_nil_r in N. Qed.

Lemma invariant_order_declared (nodes : list node) (es : list edge) deg ord v :
  invariant K_eq_dec nodes es [] deg [] ord -> In v ord -> In v (ids nodes).
Proof.
  intros I Iv. apply (inv_keys I). eapply get_Some_keys.
  apply (inv_ready I). rewrite app_nil_r. exact Iv.
Qed.

(** along a path of edges that ends inside the order, the start is in
    the order too, at an earlier place *)
Lemma path_into_order (nodes : list node) (es : list edge) deg ord :
  invariant K_eq_dec nodes es [] deg [] ord ->
  forall s t, clos_trans K (edge_rel es) s t -> In t ord ->
  In s ord /\ pos s ord < pos t ord.
Proof.
  intros I s t C.
  pose proof (invariant_order_NoDup _ _ _ _ I) as N.
  induction C as [s t E|s y t _ IH1 _ IH2]; intros It.
  - pose proof (inv_prec I _ E It) as P. simpl in P.
    split; [eapply precedes_In; eassumption|now apply precedes_position].
  - destruct (IH2 It) as [Iy Lt2]. destruct (IH1 Iy) as [Is Lt1].
    split; [assumption|lia].
Qed.

(** X3.  Whatever the graph, the returned order respects the edges it
    can: when the target of an edge is in the order, the source of that
    edge is in the order too and stands before the target. *)
Theorem order_respects_every_edge_it_reaches (nodes : list node) (es : list edge) ord :
  build nodes es = Ok ord ->
  forall e, In e es -> In (target e) ord -> before (source e) (target e) ord.
Proof.
  intros B e Ie It.
  destruct (build_execution_order_invariant _ _ _ B) as [deg I].
  destruct (inv_prec I e Ie It) as (l1 & l3 & E & Is).
  apply in_split in Is. destruct Is as (a & b & ->).
  exists a, b, l3. rewrite E, <- app_assoc. reflexivity.
Qed.

(** X4.  A node that lies on a cycle is never in the returned order; when
    such a node is declared, the order is strictly shorter than the
    number of distinct declared ids. *)
Theorem cycle_nodes_are_left_out (nodes : list node) (es : list edge) ord x :
  build nodes es = Ok ord ->
  clos_trans K (edge_rel es) x x ->
  ~ In x ord
  /\ (In x (ids nodes) ->
      List.length ord < List.length (first_occurrences K_eq_dec [] (ids nodes))).
Proof.
  intros B C.
  destruct (build_execution_order_invariant _ _ _ B) as [deg I].
  assert (Nx : ~ In x ord).
  { intros Ix. destruct (path_into_order _ _ _ _ I _ _ C Ix) as [_ Lt]. lia. }
  split; [assumption|]. intros Dx.
  pose proof (invariant_order_NoDup _ _ _ _ I) as N.
  assert (Sub : incl (x :: ord) (first_occurrences K_eq_dec [] (ids nodes))).
  { intros v [<-|Iv]; apply first_occurrences_In; (split; [|simpl; tauto]).
    - assumption.
    - eapply invariant_order_declared; eassumption. }
  apply NoDup_incl_length in Sub; [simpl in Sub; lia|].
  constructor; assumption.
Qed.

(** X5.  An edge whose source is not a declared node id keeps its target
    out of the order for good. *)
Theorem undeclared_source_blocks_target (nodes : list node) (es : list edge) ord e :
  build nodes es = Ok ord ->
  In e es -> ~ In (source e) (ids nodes) ->
  ~ In (target e) ord.
Proof.
  intros B Ie Ns It.
  destruct (build_execution_order_invariant _ _ _ B) as [deg I].
  apply Ns. apply (invariant_order_declared _ _ _ _ _ I).
  eapply precedes_In. exact (inv_prec I e Ie It).
Qed.

Lemma filter_all {A} (f : A -> bool) (l : list A) :
  (forall x, f x = true) -> filter f l = l.
Proof.
  intros H. induction l as [|x l IH]; simpl; [reflexivity|].
  now rewrite H, IH.
Qed.

(** X6.  Without edges the order is the declared ids in payload order,
    each id once, at the place of its first declaration. *)
Theorem edgeless_order_is_payload_order (nodes : list node) :
  build nodes [] = Ok (first_occurrences K_eq_dec [] (ids nodes)).
Proof.
  destruct (build_execution_order_run K_eq_dec nodes []) as (ord & deg & rest & B & I & E).
  { intros e []. }
  rewrite B. f_equal.
  unfold ready_initially in E. rewrite filter_all in E by reflexivity.
  destruct rest as [|x rest]; [now rewrite app_nil_r in E|exfalso].
  pose proof (invariant_order_NoDup _ _ _ _ I) as N. rewrite E in N.
  apply NoDup_remove_2 in N. apply N, in_or_app. left.
  apply first_occurrences_In. split; [|simpl; tauto].
  apply (invariant_order_declared _ _ _ _ _ I). rewrite E. apply in_or_app. right. now left.
Qed.

End SequencerMore.

(* ================================================================== *)
(** ** More about the engine *)

Section EngineMore.
Import Paths FS Effect Dataset.
Context {K : Type}.
Variable K_eq_dec : forall x y : K, {x = y} + {x <> y}.
Variable repr : K -> string.
Variable L : Engine.library.
Local Abbreviation world := (@Engine.world K L).
Local Abbreviation node := (@Sequencer.node K).
Local Abbreviation edge := (@Sequencer.edge K).
Local Abbreviation label_of := (Engine.label_of K_eq_dec).
Local Abbreviation id_to_label_of := (Engine.id_to_label_of K_eq_dec).
Local Abbreviation run_pipeline := (Engine.run_pipeline K_eq_dec repr L).
Local Abbreviation main := (Engine.main K_eq_dec repr L).
Local Abbreviation Visiting := (@Engine.Visiting K).
Local Abbreviation training := ("Model Training"%string).

Lemma extract_all_spec (samples : list (string * string)) : forall X y (w : world),
  Engine.extract_all L samples X y w
  = (inr (X ++ map fst (extracted L samples), y ++ map snd (extracted L samples)),
     Engine.logged w (extraction_errors L samples)).
Proof.
  induction samples as [|[p l] samples IH]; intros X y w;
    cbn [Engine.extract_all extracted extraction_errors flat_map fst snd].
  - unfold ret. simpl. now rewrite !app_nil_r, logged_nil.
  - unfold mbind, Engine.extract_features.
    destruct (Engine.open_image L p) as [f|e].
    + unfold ret. rewrite IH. unfold extracted, extraction_errors.
      cbn [app map fst snd]. rewrite <- !app_assoc. reflexivity.
    + unfold mbind, Engine.print_stderr, modify, ret. rewrite IH.
      unfold extracted, extraction_errors. rewrite logged_logged. reflexivity.
Qed.

(** X7.  The feature-extraction loop never raises and keeps the feature
    list and the label list in lock-step.  The features and labels it
    appends are, in sample order, those of the samples PIL can open,
    each feature with the label of its own sample; every other sample
    gives one error line on stderr with its path and cause; so every
    sample is either kept or logged, exactly once. *)
Theorem extraction_keeps_features_and_labels_aligned
  (samples : list (string * string)) X0 y0 (w : world) :
  exists kept log,
    Engine.extract_all L samples X0 y0 w
    = (inr (X0 ++ map fst kept, y0 ++ map snd kept), Engine.logged w log)
    /\ kept = extracted L samples
    /\ log = extraction_errors L samples
    /\ (forall f l, In (f, l) kept
          <-> exists p, In (p, l) samples /\ Engine.open_image L p = inl f)
    /\ (forall p e, In (Engine.ErrorProcessingImage p e) log
          <-> exists l, In (p, l) samples /\ Engine.open_image L p = inr e)
    /\ List.length kept + List.length log = List.length samples.
Proof.
  exists (extracted L samples), (extraction_errors L samples).
  split; [apply extract_all_spec|]. split; [reflexivity|]. split; [reflexivity|].
  split; [|split].
  - intros f l. unfold extracted. rewrite in_flat_map. split.
    + intros ([p l'] & Is & I). cbn [fst snd] in I.
      destruct (Engine.open_image L p) as [f'|e] eqn:O; [|destruct I].
      destruct I as [[= <- <-]|[]]. eauto.
    + intros (p & Is & O). exists (p, l). split; [assumption|].
      cbn [fst snd]. rewrite O. now left.
  - intros p e. unfold extraction_errors. rewrite in_flat_map. split.
    + intros ([p' l] & Is & I). cbn [fst snd] in I.
      destruct (Engine.open_image L p') as [f|e'] eqn:O; [destruct I|].
      destruct I as [[= <- <-]|[]]. eauto.
    + intros (l & Is & O). exists (p, l). split; [assumption|].
      cbn [fst snd]. rewrite O. now left.
  - unfold extracted, extraction_errors.
    induction samples as [|s samples IH]; [reflexivity|].
    cbn [flat_map]. rewrite !length_app.
    destruct (Engine.open_image L (fst s)); simpl in *; lia.
Qed.

(** X8.  The stage walk visits a prefix of the order and logs the label
    of each node it visits.  It reports the training stage as found
    exactly when that prefix ends at the first node labelled "Model
    Training"; otherwise it has visited the whole order and no label in
    it is "Model Training".  It never raises and touches neither stdout
    nor the disk. *)
Theorem gate_visits_a_prefix_and_finds_first_training_node
  d (ord : list K) stages (w : world) :
  exists visited rest found,
    ord = visited ++ rest
    /\ Engine.walk_stages K_eq_dec L d ord stages w
       = (inr (stages ++ map (label_of d) visited, found),
          Engine.logged w (map Visiting (map (label_of d) visited)))
    /\ if found
       then exists pre x, visited = pre ++ [x] /\ label_of d x = training
                          /\ Forall (fun y => label_of d y <> training) pre
       else rest = [] /\ Forall (fun y => label_of d y <> training) visited.
Proof.
  revert stages w. induction ord as [|y ord IH]; intros stages w.
  - exists [], [], false. split; [reflexivity|].
    split; [|split; [reflexivity|constructor]].
    cbn [Engine.walk_stages map]. unfold ret. now rewrite app_nil_r, logged_nil.
  - cbn [Engine.walk_stages]. unfold mbind, Engine.print_stderr, modify.
    destruct (String.eqb_spec (label_of d y) training) as [E|N].
    + exists [y], ord, true. split; [reflexivity|]. split; [reflexivity|].
      exists [], y. split; [reflexivity|]. split; [assumption|constructor].
    + destruct (IH (stages ++ [label_of d y]) (Engine.logged w [Visiting (label_of d y)]))
        as (visited & rest & found & -> & W & F).
      exists (y :: visited), rest, found. split; [reflexivity|].
      split.
      * rewrite W, logged_logged. cbn [map]. rewrite <- app_assoc. reflexivity.
      * destruct found.
        -- destruct F as (pre & x & -> & Hx & Hp).
           exists (y :: pre), x. split; [reflexivity|]. split; [assumption|].
           constructor; assumption.
        -- destruct F as [-> Hp]. split; [reflexivity|]. constructor; assumption.
Qed.


Lemma id_to_label_of_snoc (nodes : list node) n :
  id_to_label_of (nodes ++ [n])
  = Dict.set K_eq_dec (id n) (label n) (id_to_label_of nodes).
Proof. unfold Engine.id_to_label_of. now rewrite fold_left_app. Qed.

Lemma id_to_label_last (nodes : list node) : forall v,
  In v (ids nodes) ->
  exists pre n post,
    nodes = pre ++ n :: post /\ id n = v
    /\ Forall (fun m => id m <> v) post
    /\ Dict.get K_eq_dec v (id_to_label_of nodes) = Some (label n).
Proof.
  induction nodes as [|n nodes IH] using rev_ind; intros v I; [destruct I|].
  rewrite id_to_label_of_snoc.
  destruct (K_eq_dec (id n) v) as [E|N].
  - exists nodes, n, []. rewrite <- E, get_set_same. repeat split. constructor.
  - unfold ids in I. rewrite map_app in I. apply in_app_or in I.
    destruct I as [I|[I|[]]]; [|contradiction].
    destruct (IH v I) as (pre & n0 & post & -> & E0 & F & G).
    exists pre, n0, (post ++ [n]). rewrite <- app_assoc. split; [reflexivity|].
    split; [assumption|]. split.
    + apply Forall_app. split; [assumption|]. constructor; [assumption|constructor].
    + now rewrite get_set_other.
Qed.

(** X9.  Every id of an order the Sequencer returns has a label in
    [id_to_label], so the default "Unknown" is never used for it; when an
    id is declared more than once, the label of its last declaration is
    the one used. *)
Theorem ordered_ids_are_labelled_by_last_declaration
  (nodes : list node) (es : list edge) ord v :
  build_execution_order K_eq_dec nodes es = Ok ord ->
  In v ord ->
  exists pre n post,
    nodes = pre ++ n :: post /\ id n = v
    /\ Forall (fun m => id m <> v) post
    /\ label_of (id_to_label_of nodes) v = label n.
Proof.
  intros B Iv.
  destruct (build_execution_order_invariant K_eq_dec _ _ _ B) as [deg I].
  destruct (id_to_label_last nodes v) as (pre & n & post & E & Ev & F & G).
  { eapply invariant_order_declared; eassumption. }
  exists pre, n, post. unfold Engine.label_of. rewrite G. auto.
Qed.


(** X11.  When the image folder of the payload does not exist (or the
    payload names none and "" does not exist), [main] writes the error
    record "Extracted image folder not found." and nothing else: the
    pipeline is not started, whatever the nodes and edges are. *)
Theorem missing_folder_is_reported_before_anything_runs
  (project_root : string) (payload : Engine.payload) (w : world) :
  exists_ (Engine.fs w) (Engine.default (Engine.p_imageFolder payload) ""%string) = false ->
  main project_root (inr payload) w
  = (inr tt,
     {| Engine.fs := Engine.fs w;
        Engine.stdout := Engine.stdout w ++
          [Engine.Error "Extracted image folder not found." None];
        Engine.stderr := Engine.stderr w |}).
Proof.
  intros H. unfold Engine.main, try_except.
  cbv [mbind lift ret Engine.get_fs get_world]. rewrite H. reflexivity.
Qed.

(** X12.  When the image folder exists but is not a directory, the
    [NotADirectoryError] of [os.listdir] is caught by [main], which
    writes one error record "Unexpected error occurred: [Errno 20] Not a
    directory: " followed by the [repr] of the folder, with a trace; the
    disk is untouched. *)
Theorem unlistable_folder_becomes_an_error_record
  (project_root : string) (payload : Engine.payload) (w : world) :
  let folder := Engine.default (Engine.p_imageFolder payload) ""%string in
  exists_ (Engine.fs w) folder = true ->
  isdir (Engine.fs w) folder = false ->
  main project_root (inr payload) w
  = (inr tt,
     {| Engine.fs := Engine.fs w;
        Engine.stdout := Engine.stdout w ++
          [Engine.Error
             ("Unexpected error occurred: "
              ++ ("[Errno 20] Not a directory" ++ ": " ++ repr_str folder))%string
             (Some (Engine.format_exc L (ExOSError ENOTDIR folder)))];
        Engine.stderr := Engine.stderr w ++ [Engine.Starting] |}).
Proof.
  intros folder He Hd. unfold Engine.main, try_except, Engine.run_pipeline.
  cbv [mbind lift ret raise Engine.get_fs get_world Engine.print_stderr modify].
  fold folder. rewrite He. cbn [negb Engine.fs Engine.logged].
  rewrite load_dataset_spec.
  assert (Hl : listdir (Engine.fs w) folder = None
               /\ listdir_error (Engine.fs w) folder = ENOTDIR).
  { unfold exists_, isdir, listdir, listdir_error in *.
    destruct (Dict.get string_dec folder (Engine.fs w)) as [[|l]|];
      try discriminate; auto. }
  destruct Hl as [-> ->]. reflexivity.
Qed.

Lemma Forall_not_training d (l : list K) :
  Forall (fun y => label_of d y <> training) l ->
  forall y, In y l -> label_of d y <> training.
Proof. intros F. now apply Forall_forall. Qed.

(** X13.  With a dataset that is not empty, the [KeyError] of the
    Sequencer (an edge into an undeclared id) is caught by [main] and
    becomes one error record whose message ends in the [repr] of the
    missing id, with a trace; nothing is trained or written to disk. *)
Theorem sequencer_key_error_becomes_an_error_record
  (project_root : string) (payload : Engine.payload) (w : world) p ps ls k :
  let folder := Engine.default (Engine.p_imageFolder payload) ""%string in
  let nodes := Engine.default (Engine.p_nodes payload) [] in
  let edges := Engine.default (Engine.p_edges payload) [] in
  exists_ (Engine.fs w) folder = true ->
  Engine.load_dataset (Engine.fs w) folder = inr (p :: ps, ls) ->
  build_execution_order K_eq_dec nodes edges = KeyError k ->
  main project_root (inr payload) w
  = (inr tt,
     {| Engine.fs := Engine.fs w;
        Engine.stdout := Engine.stdout w ++
          [Engine.Error ("Unexpected error occurred: " ++ repr k)%string
                        (Some (Engine.format_exc L (ExKeyError (repr k))))];
        Engine.stderr := Engine.stderr w ++ [Engine.Starting] |}).
Proof.
  intros folder nodes edges He Hl Hb.
  unfold Engine.main, try_except, Engine.run_pipeline.
  cbv [mbind lift ret raise Engine.get_fs get_world Engine.print_stderr modify
       Engine.lift_outcome].
  fold folder nodes edges. rewrite He. cbn [negb Engine.fs Engine.logged].
  rewrite Hl. cbn [Engine.is_empty]. rewrite Hb. reflexivity.
Qed.

(** X14.  With a dataset that is not empty, when no node of the
    execution order is labelled "Model Training", [run_pipeline] visits
    every node of the order and returns the error record "Model Training
    node not connected in the pipeline." before it opens any image: the
    only traces are the progress lines of the graph check. *)
Theorem unconnected_training_is_rejected_before_extraction
  (project_root image_dir : string) (nodes : list node) (es : list edge)
  (w : world) p ps ls ord :
  Engine.load_dataset (Engine.fs w) image_dir = inr (p :: ps, ls) ->
  build_execution_order K_eq_dec nodes es = Ok ord ->
  Forall (fun y => label_of (id_to_label_of nodes) y <> training) ord ->
  run_pipeline project_root image_dir nodes es w
  = (inr (Some (Engine.Error "Model Training node not connected in the pipeline." None)),
     Engine.logged w
       ([Engine.Starting; Engine.ExecutionOrder ord;
         Engine.IdToLabel (id_to_label_of nodes)]
        ++ map Visiting (map (label_of (id_to_label_of nodes)) ord))).
Proof.
  intros Hl Hb Hf. unfold Engine.run_pipeline.
  cbv [mbind lift ret raise Engine.get_fs get_world Engine.print_stderr modify
       Engine.lift_outcome].
  cbn [Engine.fs Engine.logged]. rewrite Hl. cbn [Engine.is_empty]. rewrite Hb.
  rewrite walk_stages_not_found by (now apply Forall_not_training).
  cbn [negb]. rewrite !logged_logged. reflexivity.
Qed.

(** X15.  With a dataset that is not empty and every edge target
    declared, when every declared id whose label is "Model Training" lies
    on a cycle, [run_pipeline] returns the error record "Model Training
    node not connected in the pipeline.". *)
Theorem training_on_a_cycle_is_unconnected
  (project_root image_dir : string) (nodes : list node) (es : list edge)
  (w : world) p ps ls :
  Engine.load_dataset (Engine.fs w) image_dir = inr (p :: ps, ls) ->
  (forall e, In e es -> In (target e) (ids nodes)) ->
  (forall v, In v (ids nodes) -> label_of (id_to_label_of nodes) v = training ->
             clos_trans K (edge_rel es) v v) ->
  fst (run_pipeline project_root image_dir nodes es w)
  = inr (Some (Engine.Error "Model Training node not connected in the pipeline." None)).
Proof.
  intros Hl Ht Hc.
  destruct (build_execution_order_run K_eq_dec nodes es Ht) as (ord & deg & _ & B & I & _).
  assert (Hf : forall y, In y ord -> label_of (id_to_label_of nodes) y <> training).
  { intros v Iv E.
    pose proof (invariant_order_declared K_eq_dec _ _ _ _ _ I Iv) as Dv.
    destruct (path_into_order K_eq_dec _ _ _ _ I _ _ (Hc v Dv E) Iv) as [_ Lt]. lia. }
  unfold Engine.run_pipeline.
  cbv [mbind lift ret raise Engine.get_fs get_world Engine.print_stderr modify
       Engine.lift_outcome].
  cbn [Engine.fs Engine.logged]. rewrite Hl. cbn [Engine.is_empty]. rewrite B.
  rewrite walk_stages_not_found by assumption. reflexivity.
Qed.

(** X16.  The successful run, end to end.  When the dataset is not
    empty, the order reaches a first node labelled "Model Training", at
    least one image can be opened, the four learning steps succeed on
    the samples that could be opened and both [joblib.dump] calls
    succeed, [run_pipeline] leaves both artifact files in
    [project_root], writes one success record that carries the score
    and, as [stagesExecuted], the labels up to and including "Model
    Training", and returns nothing. *)
Theorem successful_run_end_to_end
  (project_root image_dir : string) (nodes : list node) (es : list edge)
  (w : world) image_paths labels pre x post le y_encoded sp clf accuracy fs1 fs2 :
  let d := id_to_label_of nodes in
  let kept := extracted L (combine image_paths labels) in
  let model_path := join project_root ["model.pkl"%string] in
  let encoder_path := join project_root ["label_encoder.pkl"%string] in
  Engine.load_dataset (Engine.fs w) image_dir = inr (image_paths, labels) ->
  image_paths <> [] ->
  build_execution_order K_eq_dec nodes es = Ok (pre ++ x :: post) ->
  label_of d x = training ->
  Forall (fun y => label_of d y <> training) pre ->
  kept <> [] ->
  Engine.fit_transform L (map snd kept) = inr (le, y_encoded) ->
  Engine.train_test_split L (map fst kept) y_encoded = inr sp ->
  Engine.fit L sp = inr clf ->
  Engine.score L clf sp = inr accuracy ->
  try_dump (Engine.fs w) model_path = Some fs1 ->
  try_dump fs1 encoder_path = Some fs2 ->
  exists w',
    run_pipeline project_root image_dir nodes es w = (inr None, w')
    /\ Engine.fs w' = fs2
    /\ fs2 = dump (dump (Engine.fs w) model_path) encoder_path
    /\ Engine.stdout w' = Engine.stdout w ++
         [Engine.Success "Pipeline executed and model trained successfully!"
            "RandomForestClassifier" accuracy
            (map (label_of d) pre ++ [training]) "/uploads/model.pkl"]
    /\ Engine.stderr w' = Engine.stderr w ++
         [Engine.Starting; Engine.ExecutionOrder (pre ++ x :: post); Engine.IdToLabel d]
         ++ map Visiting (map (label_of d) pre ++ [training])
         ++ extraction_errors L (combine image_paths labels)
         ++ [Engine.EncodingLabels; Engine.DatasetSize (List.length kept);
             Engine.Splitting; Engine.Training; Engine.Evaluating;
             Engine.Saved model_path encoder_path].
Proof.
  intros d kept model_path encoder_path Hl Hne Hb Hx Hpre Hk Hft Hsp Hfit Hsc D1 D2.
  unfold Engine.run_pipeline.
  cbv [mbind lift ret raise Engine.get_fs get_world Engine.print_stderr modify
       Engine.lift_outcome Engine.joblib_dump Engine.print_stdout].
  cbn [Engine.fs Engine.logged]. rewrite Hl.
  destruct image_paths as [|p ps]; [congruence|]. cbn [Engine.is_empty].
  rewrite Hb. fold d.
  rewrite walk_stages_found by (auto; now apply Forall_not_training).
  cbn [negb]. rewrite extract_all_spec. fold kept. cbn [app].
  destruct kept as [|[f0 l0] more] eqn:Ek; [congruence|].
  cbn [map fst snd Engine.is_empty orb]. cbn [map fst snd] in Hft, Hsp.
  rewrite Hft, Hsp, Hfit, Hsc.
  cbn [Engine.fs Engine.logged]. fold model_path encoder_path.
  rewrite D1. cbn [Engine.fs]. rewrite D2.
  eexists. split; [reflexivity|].
  cbn [Engine.fs Engine.stdout Engine.stderr Engine.logged].
  split; [reflexivity|].
  split; [apply try_dump_Some in D1; apply try_dump_Some in D2; now subst|].
  split; [reflexivity|].
  rewrite <- !app_assoc. cbn [app List.length map]. rewrite length_map.
  reflexivity.
Qed.

(** X17.  When the dataset is not empty and the training stage is reached
    but no image can be opened, [run_pipeline] returns the error record
    "Feature extraction failed or no images were processed." after one
    error line per sample; nothing is written to disk or to stdout. *)
Theorem unreadable_dataset_is_rejected
  (project_root image_dir : string) (nodes : list node) (es : list edge)
  (w : world) image_paths labels pre x post :
  let d := id_to_label_of nodes in
  Engine.load_dataset (Engine.fs w) image_dir = inr (image_paths, labels) ->
  image_paths <> [] ->
  build_execution_order K_eq_dec nodes es = Ok (pre ++ x :: post) ->
  label_of d x = training ->
  Forall (fun y => label_of d y <> training) pre ->
  extracted L (combine image_paths labels) = [] ->
  run_pipeline project_root image_dir nodes es w
  = (inr (Some (Engine.Error "Feature extraction failed or no images were processed." None)),
     Engine.logged w
       ([Engine.Starting; Engine.ExecutionOrder (pre ++ x :: post); Engine.IdToLabel d]
        ++ map Visiting (map (label_of d) pre ++ [training])
        ++ extraction_errors L (combine image_paths labels))).
Proof.
  intros d Hl Hne Hb Hx Hpre Hk.
  unfold Engine.run_pipeline.
  cbv [mbind lift ret raise Engine.get_fs get_world Engine.print_stderr modify
       Engine.lift_outcome].
  cbn [Engine.fs Engine.logged]. rewrite Hl.
  destruct image_paths as [|p ps]; [congruence|]. cbn [Engine.is_empty].
  rewrite Hb. fold d.
  rewrite walk_stages_found by (auto; now apply Forall_not_training).
  cbn [negb]. rewrite extract_all_spec, Hk. cbn [app map Engine.is_empty orb].
  rewrite !logged_logged. reflexivity.
Qed.

Lemma exists_dump_other (fs0 : filesystem) (p q : string) :
  p <> q -> exists_ (dump fs0 p) q = exists_ fs0 q.
Proof. intros N. unfold exists_, dump. now rewrite get_set_other. Qed.

Lemma string_append_assoc (a b c : string) :
  ((a ++ b) ++ c = a ++ (b ++ c))%string.
Proof. induction a as [|x a IH]; simpl; [reflexivity|now rewrite IH]. Qed.

Lemma string_append_cancel (a b c : string) :
  (a ++ b = a ++ c)%string -> b = c.
Proof. induction a as [|x a IH]; simpl; [auto|]. intros [= E]. auto. Qed.

Lemma join2_separator (a : string) :
  exists sep, (sep = ""%string \/ sep = "/"%string)
    /\ forall b, startswith b "/" = false -> join2 a b = (a ++ sep ++ b)%string.
Proof.
  destruct (String.eqb a "" || endswith a "/") eqn:C.
  - exists ""%string. split; [now left|]. intros b S. unfold join2. now rewrite S, C.
  - exists "/"%string. split; [now right|]. intros b S. unfold join2. now rewrite S, C.
Qed.

(** the file the engine writes as encoder is not the one the prediction
    script reads as model, nor the other way round *)
Lemma artifact_paths_cross (d : string) :
  join d ["label_encoder.pkl"%string] <> Predict.model_path d
  /\ join d ["model.pkl"%string] <> Predict.encoder_path d.
Proof.
  unfold Predict.model_path, Predict.encoder_path, join. simpl.
  destruct (join2_separator d) as (sep & Hs & J).
  destruct (join2_separator (join2 d "uploads")) as (sep' & Hs' & J').
  rewrite !J', !J by reflexivity.
  split; intros E; rewrite !string_append_assoc in E;
    apply string_append_cancel in E; apply string_append_cancel in E;
    destruct Hs' as [-> | ->]; discriminate E.
Qed.

(** X18.  No run of the engine creates or removes the files the
    prediction script looks for: with both scripts in one directory,
    [uploads/model.pkl] and [uploads/label_encoder.pkl] exist after
    [main] exactly when they existed before. *)
Theorem training_never_touches_the_prediction_artifacts
  (script_dir : string) (input : exn + Engine.payload) (w : world) :
  let w' := snd (main script_dir input w) in
  exists_ (Engine.fs w') (Predict.model_path script_dir)
    = exists_ (Engine.fs w) (Predict.model_path script_dir)
  /\ exists_ (Engine.fs w') (Predict.encoder_path script_dir)
     = exists_ (Engine.fs w) (Predict.encoder_path script_dir).
Proof.
  destruct (artifact_paths_cross script_dir) as [Nme Nem].
  assert (Same : forall w1 : world,
            Engine.fs w1 = Engine.fs w
            \/ Engine.fs w1 = dump (Engine.fs w) (join script_dir ["model.pkl"%string])
            \/ Engine.fs w1 = dump (dump (Engine.fs w) (join script_dir ["model.pkl"%string]))
                                   (join script_dir ["label_encoder.pkl"%string]) ->
            exists_ (Engine.fs w1) (Predict.model_path script_dir)
              = exists_ (Engine.fs w) (Predict.model_path script_dir)
            /\ exists_ (Engine.fs w1) (Predict.encoder_path script_dir)
               = exists_ (Engine.fs w) (Predict.encoder_path script_dir)).
  { destruct (artifact_paths_differ script_dir) as [Nm Ne].
    intros w1 [->|[->| ->]]; [auto| |];
      rewrite !exists_dump_other by assumption; auto. }
  unfold Engine.main, try_except.
  destruct input as [e|payload].
  - cbv [mbind lift raise Engine.print_stdout modify]. simpl. auto.
  - cbv [mbind lift ret Engine.get_fs get_world].
    destruct (exists_ (Engine.fs w) (Engine.default (Engine.p_imageFolder payload) ""%string));
      cbn [negb].
    + pose proof (run_pipeline_cases K_eq_dec repr L script_dir
                    (Engine.default (Engine.p_imageFolder payload) ""%string)
                    (Engine.default (Engine.p_nodes payload) [])
                    (Engine.default (Engine.p_edges payload) []) w) as C.
      destruct (Engine.run_pipeline K_eq_dec repr L script_dir _ _ _ w) as [r w1].
      destruct C as [(So & Nr & Sf)|[(So & -> & Sf)|(-> & Sf & _)]].
      * destruct r as [e|o]; cbv [Engine.print_stdout modify]; simpl;
          apply Same; now left.
      * cbv [Engine.print_stdout modify]. simpl. apply Same. right. now left.
      * simpl. apply Same. right. now right.
    + cbv [Engine.print_stdout modify]. simpl. auto.
Qed.

End EngineMore.

(* ================================================================== *)
(** ** More about the Dataset Loader's extension test *)

Section ExtensionFacts.
Import Paths.

Lemma lower_append (a b : string) : lower (a ++ b) = (lower a ++ lower b)%string.
Proof. induction a as [|c a IH]; simpl; [reflexivity|now rewrite IH]. Qed.

Lemma substring_whole (b : string) : String.substring 0 (String.length b) b = b.
Proof. induction b as [|c b IH]; simpl; [reflexivity|now rewrite IH]. Qed.

Lemma substring_skip (a b : string) (m : nat) :
  String.substring (String.length a) m (a ++ b) = String.substring 0 m b.
Proof. induction a as [|c a IH]; simpl; [reflexivity|apply IH]. Qed.

Lemma endswith_append (a b : string) : endswith (a ++ b) b = true.
Proof.
  unfold endswith. rewrite length_append.
  destruct (Nat.leb_spec (String.length b) (String.length a + String.length b)); [|lia].
  rewrite Nat.add_sub, substring_skip, substring_whole. apply String.eqb_refl.
Qed.

(** X19.  The extension test of the Dataset Loader is a suffix test that
    ignores case: whatever the stem, a name that ends in an extension
    which in lower case is .png, .jpg, .jpeg or .bmp is accepted. *)
Theorem extension_test_ignores_case (stem ext : string) :
  In (lower ext) Engine.image_extensions ->
  endswith_any (lower (stem ++ ext)) Engine.image_extensions = true.
Proof.
  intros I. unfold endswith_any. apply existsb_exists.
  exists (lower ext). split; [assumption|].
  rewrite lower_append. apply endswith_append.
Qed.

(** X19 at [Holiday.JpEg]. *)
Lemma extension_test_ignores_case_witness :
  In (lower ".JpEg") Engine.image_extensions
  /\ endswith_any (lower ("Holiday" ++ ".JpEg")) Engine.image_extensions = true.
Proof.
  assert (I : In (lower ".JpEg") Engine.image_extensions) by (vm_compute; tauto).
  split; [exact I|].
  exact (extension_test_ignores_case "Holiday" ".JpEg" I).
Defined.

End ExtensionFacts.

(* ================================================================== *)
(** ** More about the prediction script *)

Section PredictMore.
Import Paths FS Effect.
Variable L : Predict.library.
Local Abbreviation main := (Predict.main L).
Local Abbreviation world := Predict.world.

Lemma response_not_appended (out : list Predict.response) r r' :
  out ++ [r] = out ++ [r'] -> r = r'.
Proof. intros E. apply app_inv_head in E. now injection E. Qed.

(** X20.  The prediction script never lets an exception escape, never
    changes the disk, and writes exactly one record to stdout whatever
    its input is. *)
Theorem predict_writes_exactly_one_record
  (base_dir : string) (input : exn + option string) (w : world) :
  let (r, w') := main base_dir input w in
  r = inr tt
  /\ Predict.fs w' = Predict.fs w
  /\ exists response, Predict.stdout w' = Predict.stdout w ++ [response].
Proof.
  unfold Predict.main, try_except, Predict.preprocess_image.
  cbv [mbind lift ret raise Predict.get_fs get_world Predict.print_stderr
       Predict.write_stdout modify].
  cbn [Predict.fs Predict.stdout].
  destruct input as [e|image_path]; [simpl; eauto|].
  repeat match goal with
         | |- context [if ?c then _ else _] => destruct c
         | |- context [match ?x with inl _ => _ | inr _ => _ end] => destruct x
         end;
    simpl; eauto.
Qed.

(** X21.  When the payload has no image path, or an empty one, or one
    that names nothing on disk, the prediction script answers with the
    "missing" record that echoes the path it was given, and does not look
    at the artifacts. *)
Theorem missing_image_is_reported_first
  (base_dir : string) (image_path : option string) (w : world) :
  Predict.falsy image_path = true
  \/ exists_ (Predict.fs w) (match image_path with Some p => p | None => ""%string end) = false ->
  main base_dir (inr image_path) w
  = (inr tt,
     {| Predict.fs := Predict.fs w;
        Predict.stdout := Predict.stdout w ++
          [Predict.MissingImage " Image path is missing or file does not exist." image_path];
        Predict.stderr := Predict.stderr w ++ [Predict.StartingPrediction] |}).
Proof.
  intros H. unfold Predict.main, try_except.
  cbv [mbind lift ret raise Predict.get_fs get_world Predict.print_stderr
       Predict.write_stdout modify].
  cbn [Predict.fs Predict.stdout Predict.stderr].
  assert (C : Predict.falsy image_path
              || negb (exists_ (Predict.fs w)
                         (match image_path with Some p => p | None => ""%string end)) = true).
  { destruct H as [-> | ->]; [reflexivity|apply orb_true_r]. }
  rewrite C. reflexivity.
Qed.

(** X22.  With an image that exists, a missing model file is reported
    whether or not the encoder file exists; a missing encoder file is
    reported only when the model file exists.  In both cases nothing is
    loaded. *)
Theorem missing_model_is_reported_before_missing_encoder
  (base_dir image_path : string) (w : world) :
  image_path <> ""%string ->
  exists_ (Predict.fs w) image_path = true ->
  (exists_ (Predict.fs w) (Predict.model_path base_dir) = false ->
   main base_dir (inr (Some image_path)) w
   = (inr tt,
      {| Predict.fs := Predict.fs w;
         Predict.stdout := Predict.stdout w ++
           [Predict.Failure " Trained model file (uploads/model.pkl) not found." None];
         Predict.stderr := Predict.stderr w ++
           [Predict.StartingPrediction; Predict.ImagePathReceived image_path] |}))
  /\ (exists_ (Predict.fs w) (Predict.model_path base_dir) = true ->
      exists_ (Predict.fs w) (Predict.encoder_path base_dir) = false ->
      main base_dir (inr (Some image_path)) w
      = (inr tt,
         {| Predict.fs := Predict.fs w;
            Predict.stdout := Predict.stdout w ++
              [Predict.Failure " Label encoder file (uploads/label_encoder.pkl) not found." None];
            Predict.stderr := Predict.stderr w ++
              [Predict.StartingPrediction; Predict.ImagePathReceived image_path] |})).
Proof.
  intros Ne He.
  assert (F : Predict.falsy (Some image_path) = false).
  { simpl. now apply String.eqb_neq. }
  split; [intros Hm|intros Hm Henc].
  - unfold Predict.main, try_except.
    cbv [mbind lift ret raise Predict.get_fs get_world Predict.print_stderr
         Predict.write_stdout modify].
    cbn [Predict.fs Predict.stdout Predict.stderr].
    rewrite F, He, Hm. cbn [negb orb Predict.fs Predict.stdout Predict.stderr].

    rewrite <- app_assoc. reflexivity.
  - unfold Predict.main, try_except.
    cbv [mbind lift ret raise Predict.get_fs get_world Predict.print_stderr
         Predict.write_stdout modify].
    cbn [Predict.fs Predict.stdout Predict.stderr].
    rewrite F, He, Hm. cbn [negb orb]. rewrite Henc.
    cbn [negb Predict.fs Predict.stdout Predict.stderr].
    rewrite <- app_assoc. reflexivity.
Qed.

(** X23.  A prediction is written only when the image, the model file
    and the encoder file all exist, both files could be loaded and the
    image could be opened; the class written is the predicted index sent
    back through the label encoder. *)
Theorem prediction_needs_image_and_both_artifacts
  (base_dir : string) (input : exn + option string) (w : world) (c : string) :
  Predict.stdout (snd (main base_dir input w))
    = Predict.stdout w ++ [Predict.Prediction c] ->
  exists p model enc f z,
    input = inr (Some p)
    /\ exists_ (Predict.fs w) p = true
    /\ exists_ (Predict.fs w) (Predict.model_path base_dir) = true
    /\ exists_ (Predict.fs w) (Predict.encoder_path base_dir) = true
    /\ Predict.load_model L (Predict.model_path base_dir) = inr model
    /\ Predict.load_encoder L (Predict.encoder_path base_dir) = inr enc
    /\ Predict.open_image L p = inl f
    /\ Predict.predict L model f = inr z
    /\ Predict.inverse_transform L enc z = inr c.
Proof.
  unfold Predict.main, try_except, Predict.preprocess_image.
  cbv [mbind lift ret raise Predict.get_fs get_world Predict.print_stderr
       Predict.write_stdout modify].
  cbn [Predict.fs Predict.stdout].
  destruct input as [e|[p|]];
    [simpl; intros E; apply response_not_appended in E; discriminate E| |
     simpl; intros E; apply response_not_appended in E; discriminate E].
  cbn [Predict.falsy Predict.fs Predict.stdout Predict.stderr].
  destruct (String.eqb p ""); cbn [orb];
    [simpl; intros E; apply response_not_appended in E; discriminate E|].
  destruct (exists_ (Predict.fs w) p) eqn:He; cbn [negb];
    [|simpl; intros E; apply response_not_appended in E; discriminate E].
  destruct (exists_ (Predict.fs w) (Predict.model_path base_dir)) eqn:Hm; cbn [negb];
    [|simpl; intros E; apply response_not_appended in E; discriminate E].
  destruct (exists_ (Predict.fs w) (Predict.encoder_path base_dir)) eqn:Hc; cbn [negb];
    [|simpl; intros E; apply response_not_appended in E; discriminate E].
  destruct (Predict.load_model L (Predict.model_path base_dir)) as [e|model] eqn:Lm;
    [simpl; intros E; apply response_not_appended in E; discriminate E|].
  destruct (Predict.load_encoder L (Predict.encoder_path base_dir)) as [e|enc] eqn:Le;
    [simpl; intros E; apply response_not_appended in E; discriminate E|].
  destruct (Predict.open_image L p) as [f|msg] eqn:Lo;
    [|simpl; intros E; apply response_not_appended in E; discriminate E].
  cbn [Predict.fs Predict.stdout].
  destruct (Predict.predict L model f) as [e|z] eqn:Lp;
    [simpl; intros E; apply response_not_appended in E; discriminate E|].
  destruct (Predict.inverse_transform L enc z) as [e|c'] eqn:Li;
    [simpl; intros E; apply response_not_appended in E; discriminate E|].
  simpl. intros E. apply response_not_appended in E. injection E as <-.
  exists p, model, enc, f, z. repeat split; assumption.
Qed.

(** X24.  When the image exists and both artifacts load but the image
    cannot be opened, [preprocess_image] raises and [main] reports
    " Prediction failed: Image preprocessing failed: " followed by the
    cause, with a trace; no prediction is written. *)
Theorem unreadable_image_is_a_failed_prediction
  (base_dir image_path : string) (w : world) model enc msg :
  image_path <> ""%string ->
  exists_ (Predict.fs w) image_path = true ->
  exists_ (Predict.fs w) (Predict.model_path base_dir) = true ->
  exists_ (Predict.fs w) (Predict.encoder_path base_dir) = true ->
  Predict.load_model L (Predict.model_path base_dir) = inr model ->
  Predict.load_encoder L (Predict.encoder_path base_dir) = inr enc ->
  Predict.open_image L image_path = inr msg ->
  main base_dir (inr (Some image_path)) w
  = (inr tt,
     {| Predict.fs := Predict.fs w;
        Predict.stdout := Predict.stdout w ++
          [Predict.Failure
             (" Prediction failed: " ++ ("Image preprocessing failed: " ++ msg))%string
             (Some (Predict.format_exc L
                      (ExRuntime ("Image preprocessing failed: " ++ msg)%string)))];
        Predict.stderr := Predict.stderr w ++
          [Predict.StartingPrediction; Predict.ImagePathReceived image_path;
           Predict.LoadingModel (Predict.model_path base_dir); Predict.ModelLoaded;
           Predict.LoadingEncoder (Predict.encoder_path base_dir); Predict.EncoderLoaded;
           Predict.Preprocessing] |}).
Proof.
  intros Ne He Hm Hc Lm Le Lo.
  assert (F : Predict.falsy (Some image_path) = false).
  { simpl. now apply String.eqb_neq. }
  unfold Predict.main, try_except, Predict.preprocess_image.
  cbv [mbind lift ret raise Predict.get_fs get_world Predict.print_stderr
       Predict.write_stdout modify].
  cbn [Predict.fs Predict.stdout Predict.stderr].
  rewrite F, He, Hm. cbn [negb orb]. rewrite Hc. cbn [negb].
  rewrite Lm, Le, Lo.
  cbn [Predict.fs Predict.stdout Predict.stderr str_exn].
  rewrite <- !app_assoc. reflexivity.
Qed.

(** X25.  When the image exists, both artifacts exist and load, the
    image opens and the model and the encoder answer, the prediction
    script writes the class the encoder gives for the predicted index. *)
Theorem prediction_is_the_decoded_class
  (base_dir image_path : string) (w : world) model enc f z c :
  image_path <> ""%string ->
  exists_ (Predict.fs w) image_path = true ->
  exists_ (Predict.fs w) (Predict.model_path base_dir) = true ->
  exists_ (Predict.fs w) (Predict.encoder_path base_dir) = true ->
  Predict.load_model L (Predict.model_path base_dir) = inr model ->
  Predict.load_encoder L (Predict.encoder_path base_dir) = inr enc ->
  Predict.open_image L image_path = inl f ->
  Predict.predict L model f = inr z ->
  Predict.inverse_transform L enc z = inr c ->
  main base_dir (inr (Some image_path)) w
  = (inr tt,
     {| Predict.fs := Predict.fs w;
        Predict.stdout := Predict.stdout w ++ [Predict.Prediction c];
        Predict.stderr := Predict.stderr w ++
          [Predict.StartingPrediction; Predict.ImagePathReceived image_path;
           Predict.LoadingModel (Predict.model_path base_dir); Predict.ModelLoaded;
           Predict.LoadingEncoder (Predict.encoder_path base_dir); Predict.EncoderLoaded;
           Predict.Preprocessing; Predict.Preprocessed;
           Predict.PredictionCompleted] |}).
Proof.
  intros Ne He Hm Hc Lm Le Lo Lp Li.
  assert (F : Predict.falsy (Some image_path) = false).
  { simpl. now apply String.eqb_neq. }
  unfold Predict.main, try_except, Predict.preprocess_image.
  cbv [mbind lift ret raise Predict.get_fs get_world Predict.print_stderr
       Predict.write_stdout modify].
  cbn [Predict.fs Predict.stdout Predict.stderr].
  rewrite F, He, Hm. cbn [negb orb]. rewrite Hc. cbn [negb].
  rewrite Lm, Le, Lo. cbn [Predict.fs Predict.stdout Predict.stderr].
  rewrite Lp, Li. cbn [Predict.fs Predict.stdout Predict.stderr].
  rewrite <- !app_assoc. reflexivity.
Qed.

End PredictMore.

(* ================================================================== *)
(** ** The further properties on concrete inputs *)

Section MoreExamples.
Import Scenario Paths FS Effect Dataset.
Open Scope string_scope.
Local Abbreviation toy := (toy_engine (fun _ => true)).
Local Abbreviation unreadable := (toy_engine (fun _ => false)).

(** X1 at the chain A -> B -> C, with a bound of ten iterations. *)
Lemma sequencer_terminates_witness :
  let gd := add_edges string_dec abc_edges
              (defaultdict_list, init_in_degree string_dec abc_nodes) in
  exists g deg,
    gd = Ok (g, deg)
    /\ List.length abc_nodes <= 10
    /\ exists st',
         while_queue string_dec 10
           {| graph := g; in_degree := deg; queue := initial_queue deg; order := [] |}
         = Ok st'
         /\ queue st' = []
         /\ build_execution_order string_dec abc_nodes abc_edges = Ok (order st').
Proof.
  intros gd.
  destruct gd as [[g deg]|k|] eqn:E; try (vm_compute in E; discriminate E).
  exists g, deg. split; [reflexivity|]. split; [simpl; lia|].
  apply (proj2 (sequencer_terminates string_dec abc_nodes abc_edges) g deg 10).
  - exact E.
  - simpl; lia.
Defined.

(** X2 at the edge A -> B with B undeclared. *)
Lemma key_error_names_first_undeclared_target_witness :
  build_execution_order string_dec dangling_nodes dangling_edges = KeyError "B"
  /\ exists es1 e es2,
       dangling_edges = (es1 ++ e :: es2)%list /\ target e = "B"
       /\ ~ In "B" (ids dangling_nodes)
       /\ Forall (fun e' => In (target e') (ids dangling_nodes)) es1.
Proof.
  split; [reflexivity|].
  apply (key_error_names_first_undeclared_target string_dec dangling_nodes dangling_edges "B").
  reflexivity.
Defined.

(** X3 at the chain A -> B -> C and its edge A -> B. *)
Lemma order_respects_every_edge_it_reaches_witness :
  build_execution_order string_dec abc_nodes abc_edges = Ok ["A"; "B"; "C"]
  /\ In {| source := "A"; target := "B" |} abc_edges
  /\ In "B" ["A"; "B"; "C"]
  /\ before "A" "B" ["A"; "B"; "C"].
Proof.
  split; [reflexivity|]. split; [now left|]. split; [right; now left|].
  apply (order_respects_every_edge_it_reaches string_dec abc_nodes abc_edges
           ["A"; "B"; "C"] eq_refl {| source := "A"; target := "B" |}).
  - now left.
  - right. now left.
Defined.

Lemma cyclic_A_on_cycle : clos_trans string (edge_rel cyclic_edges) "A" "A".
Proof.
  apply t_trans with (y := "B"); apply t_step; unfold edge_rel; simpl; tauto.
Qed.

Lemma cyclic_B_on_cycle : clos_trans string (edge_rel cyclic_edges) "B" "B".
Proof.
  apply t_trans with (y := "A"); apply t_step; unfold edge_rel; simpl; tauto.
Qed.

(** X4 at the cycle A -> B -> A beside C. *)
Lemma cycle_nodes_are_left_out_witness :
  build_execution_order string_dec cyclic_nodes cyclic_edges = Ok ["C"]
  /\ clos_trans string (edge_rel cyclic_edges) "A" "A"
  /\ ~ In "A" ["C"]
  /\ (In "A" (ids cyclic_nodes) ->
      List.length ["C"] < List.length (first_occurrences string_dec [] (ids cyclic_nodes))).
Proof.
  split; [reflexivity|]. split; [exact cyclic_A_on_cycle|].
  apply (cycle_nodes_are_left_out string_dec cyclic_nodes cyclic_edges ["C"] "A").
  - reflexivity.
  - exact cyclic_A_on_cycle.
Defined.

(** X5 at the edge Z -> B with Z undeclared: B never becomes ready. *)
Lemma undeclared_source_blocks_target_witness :
  build_execution_order string_dec orphan_nodes orphan_edges = Ok []
  /\ In {| source := "Z"; target := "B" |} orphan_edges
  /\ ~ In "Z" (ids orphan_nodes)
  /\ ~ In "B" [].
Proof.
  assert (N : ~ In "Z" (ids orphan_nodes)).
  { simpl. intros [E|[]]. discriminate E. }
  split; [reflexivity|]. split; [now left|]. split; [exact N|].
  apply (undeclared_source_blocks_target string_dec orphan_nodes orphan_edges []
           {| source := "Z"; target := "B" |}).
  - reflexivity.
  - now left.
  - exact N.
Defined.

(** X9 at the chain A -> B -> C and the id B. *)
Lemma ordered_ids_are_labelled_by_last_declaration_witness :
  build_execution_order string_dec abc_nodes abc_edges = Ok ["A"; "B"; "C"]
  /\ In "B" ["A"; "B"; "C"]
  /\ exists pre n post,
       abc_nodes = (pre ++ n :: post)%list /\ id n = "B"
       /\ Forall (fun m => id m <> "B") post
       /\ Engine.label_of string_dec (Engine.id_to_label_of string_dec abc_nodes) "B"
          = label n.
Proof.
  split; [reflexivity|]. split; [right; now left|].
  apply (ordered_ids_are_labelled_by_last_declaration string_dec
           abc_nodes abc_edges ["A"; "B"; "C"] "B").
  - reflexivity.
  - right. now left.
Defined.

Local Abbreviation engine_main L := (Engine.main string_dec repr_string L "/app/ml-backend").
Local Abbreviation engine_run L :=
  (Engine.run_pipeline string_dec repr_string L "/app/ml-backend" "root").
Local Abbreviation abc_labels := (Engine.id_to_label_of string_dec abc_nodes).

(** with a directory in the place of [label_encoder.pkl], the second
    [joblib.dump] raises after [model.pkl] has been written *)
Example encoder_dump_raises_after_model_is_written :
  let w' := snd (engine_main toy (inr (abc_payload "root")) (engine_start toy blocked_fs)) in
  Engine.stdout w'
  = [Engine.Error
       "Unexpected error occurred: [Errno 21] Is a directory: '/app/ml-backend/label_encoder.pkl'"
       (Some "Traceback (most recent call last): ...")]
  /\ exists_ (Engine.fs w') "/app/ml-backend/model.pkl" = true
  /\ isdir (Engine.fs w') "/app/ml-backend/label_encoder.pkl" = true.
Proof. repeat split; reflexivity. Qed.

(** X11 at a payload whose image folder is not on disk. *)
Lemma missing_folder_is_reported_before_anything_runs_witness :
  exists_ tree_fs "nowhere" = false
  /\ engine_main toy (inr (abc_payload "nowhere")) (engine_start toy tree_fs)
     = (inr tt,
        {| Engine.fs := tree_fs;
           Engine.stdout := [Engine.Error "Extracted image folder not found." None];
           Engine.stderr := [] |}).
Proof.
  split; [reflexivity|].
  apply (missing_folder_is_reported_before_anything_runs string_dec repr_string toy
           "/app/ml-backend" (abc_payload "nowhere") (engine_start toy tree_fs)).
  reflexivity.
Defined.

(** X12 at a payload whose image folder is the file [root/readme.txt]. *)
Lemma unlistable_folder_becomes_an_error_record_witness :
  exists_ tree_fs "root/readme.txt" = true
  /\ isdir tree_fs "root/readme.txt" = false
  /\ Engine.stdout (snd (engine_main toy (inr (abc_payload "root/readme.txt"))
                           (engine_start toy tree_fs)))
     = [Engine.Error
          "Unexpected error occurred: [Errno 20] Not a directory: 'root/readme.txt'"
          (Some (Engine.format_exc toy (ExOSError ENOTDIR "root/readme.txt")))].
Proof.
  split; [reflexivity|]. split; [reflexivity|].
  rewrite (unlistable_folder_becomes_an_error_record string_dec repr_string toy
             "/app/ml-backend" (abc_payload "root/readme.txt")
             (engine_start toy tree_fs) eq_refl eq_refl).
  reflexivity.
Defined.

(** X13 at the edge A -> B with B undeclared, on the scenario tree. *)
Lemma sequencer_key_error_becomes_an_error_record_witness :
  exists_ tree_fs "root" = true
  /\ Engine.load_dataset tree_fs "root"
     = inr ("root/cat/a.jpg" :: ["root/cat/b.png"; "root/dog/c.jpeg"], ["cat"; "cat"; "dog"])
  /\ build_execution_order string_dec dangling_nodes dangling_edges = KeyError "B"
  /\ Engine.stdout (snd (engine_main toy (inr (dangling_payload "root"))
                           (engine_start toy tree_fs)))
     = [Engine.Error "Unexpected error occurred: 'B'"
                     (Some (Engine.format_exc toy (ExKeyError "'B'")))].
Proof.
  split; [reflexivity|]. split; [reflexivity|]. split; [reflexivity|].
  rewrite (sequencer_key_error_becomes_an_error_record string_dec repr_string toy
             "/app/ml-backend" (dangling_payload "root") (engine_start toy tree_fs)
             "root/cat/a.jpg" ["root/cat/b.png"; "root/dog/c.jpeg"] ["cat"; "cat"; "dog"]
             "B" eq_refl eq_refl eq_refl).
  reflexivity.
Defined.

(** X14 at the graph A -> C, where no label is "Model Training". *)
Lemma unconnected_training_is_rejected_before_extraction_witness :
  Engine.load_dataset tree_fs "root"
  = inr ("root/cat/a.jpg" :: ["root/cat/b.png"; "root/dog/c.jpeg"], ["cat"; "cat"; "dog"])
  /\ build_execution_order string_dec ac_nodes ac_edges = Ok ["A"; "C"]
  /\ engine_run toy ac_nodes ac_edges (engine_start toy tree_fs)
     = (inr (Some (Engine.Error "Model Training node not connected in the pipeline." None)),
        Engine.logged (engine_start toy tree_fs)
          ([Engine.Starting; Engine.ExecutionOrder ["A"; "C"];
            Engine.IdToLabel (Engine.id_to_label_of string_dec ac_nodes)]
           ++ map (@Engine.Visiting string)
                (map (Engine.label_of string_dec (Engine.id_to_label_of string_dec ac_nodes))
                     ["A"; "C"]))%list).
Proof.
  split; [reflexivity|]. split; [reflexivity|].
  apply (unconnected_training_is_rejected_before_extraction string_dec repr_string toy
           "/app/ml-backend" "root" ac_nodes ac_edges (engine_start toy tree_fs)
           "root/cat/a.jpg" ["root/cat/b.png"; "root/dog/c.jpeg"] ["cat"; "cat"; "dog"]
           ["A"; "C"]).
  - reflexivity.
  - reflexivity.
  - repeat constructor; vm_compute; discriminate.
Defined.

(** X15 at the cycle A -> B -> A, whose node B is the training stage. *)
Lemma training_on_a_cycle_is_unconnected_witness :
  (forall e, In e cyclic_edges -> In (target e) (ids cyclic_nodes))
  /\ fst (engine_run toy cyclic_nodes cyclic_edges (engine_start toy tree_fs))
     = inr (Some (Engine.Error "Model Training node not connected in the pipeline." None)).
Proof.
  assert (T : forall e, In e cyclic_edges -> In (target e) (ids cyclic_nodes)).
  { intros e [<-|[<-|[]]]; simpl; tauto. }
  split; [exact T|].
  apply (training_on_a_cycle_is_unconnected string_dec repr_string toy
           "/app/ml-backend" "root" cyclic_nodes cyclic_edges (engine_start toy tree_fs)
           "root/cat/a.jpg" ["root/cat/b.png"; "root/dog/c.jpeg"] ["cat"; "cat"; "dog"]).
  - reflexivity.
  - exact T.
  - intros v [<-|[<-|[<-|[]]]] E.
    + vm_compute in E. discriminate E.
    + exact cyclic_B_on_cycle.
    + vm_compute in E. discriminate E.
Defined.

(** X16 at the scenario: chain A -> B -> C, three images, all steps fine. *)
Lemma successful_run_end_to_end_witness :
  try_dump tree_fs "/app/ml-backend/model.pkl"
  = Some (dump tree_fs "/app/ml-backend/model.pkl")
  /\ try_dump (dump tree_fs "/app/ml-backend/model.pkl") "/app/ml-backend/label_encoder.pkl"
     = Some (dump (dump tree_fs "/app/ml-backend/model.pkl")
                  "/app/ml-backend/label_encoder.pkl")
  /\ exists w',
       engine_run toy abc_nodes abc_edges (engine_start toy tree_fs) = (inr None, w')
       /\ Engine.fs w' = dump (dump tree_fs "/app/ml-backend/model.pkl")
                              "/app/ml-backend/label_encoder.pkl"
       /\ Engine.stdout w'
          = [Engine.Success (L:=toy) "Pipeline executed and model trained successfully!"
               "RandomForestClassifier" 1 ["Load"; "Model Training"] "/uploads/model.pkl"].
Proof.
  split; [reflexivity|]. split; [reflexivity|].
  destruct (successful_run_end_to_end string_dec repr_string toy
              "/app/ml-backend" "root" abc_nodes abc_edges (engine_start toy tree_fs)
              ["root/cat/a.jpg"; "root/cat/b.png"; "root/dog/c.jpeg"] ["cat"; "cat"; "dog"]
              ["A"] "B" ["C"] ["cat"; "cat"; "dog"] [0; 0; 0]%Z
              (["root/cat/a.jpg"; "root/cat/b.png"; "root/dog/c.jpeg"], [0; 0; 0]%Z)
              tt 1
              (dump tree_fs "/app/ml-backend/model.pkl")
              (dump (dump tree_fs "/app/ml-backend/model.pkl")
                    "/app/ml-backend/label_encoder.pkl"))
    as (w' & R & F & _ & O & _).
  - reflexivity.
  - discriminate.
  - reflexivity.
  - reflexivity.
  - repeat constructor; vm_compute; discriminate.
  - vm_compute; discriminate.
  - reflexivity.
  - reflexivity.
  - reflexivity.
  - reflexivity.
  - reflexivity.
  - reflexivity.
  - exists w'. split; [exact R|]. split; [exact F|exact O].
Defined.

(** X17 at the scenario with a PIL that opens nothing. *)
Lemma unreadable_dataset_is_rejected_witness :
  extracted unreadable
    (combine ["root/cat/a.jpg"; "root/cat/b.png"; "root/dog/c.jpeg"] ["cat"; "cat"; "dog"])
  = []
  /\ fst (engine_run unreadable abc_nodes abc_edges (engine_start unreadable tree_fs))
     = inr (Some (Engine.Error "Feature extraction failed or no images were processed." None)).
Proof.
  split; [reflexivity|].
  rewrite (unreadable_dataset_is_rejected string_dec repr_string unreadable
             "/app/ml-backend" "root" abc_nodes abc_edges (engine_start unreadable tree_fs)
             ["root/cat/a.jpg"; "root/cat/b.png"; "root/dog/c.jpeg"] ["cat"; "cat"; "dog"]
             ["A"] "B" ["C"]).
  - reflexivity.
  - reflexivity.
  - discriminate.
  - reflexivity.
  - reflexivity.
  - repeat constructor; vm_compute; discriminate.
  - reflexivity.
Defined.

(** X21 at a payload without an image path. *)
Lemma missing_image_is_reported_first_witness :
  Predict.falsy None = true
  /\ Predict.stdout (snd (Predict.main toy_predict "/app/ml-backend" (inr None)
                            (predict_start served_fs)))
     = [Predict.MissingImage " Image path is missing or file does not exist." None].
Proof.
  split; [reflexivity|].
  rewrite (missing_image_is_reported_first toy_predict "/app/ml-backend" None
             (predict_start served_fs) (or_introl eq_refl)).
  reflexivity.
Defined.

(** X22 at a disk without [uploads/]. *)
Lemma missing_model_is_reported_before_missing_encoder_witness :
  "root/cat/a.jpg" <> ""
  /\ exists_ tree_fs "root/cat/a.jpg" = true
  /\ exists_ tree_fs (Predict.model_path "/app/ml-backend") = false
  /\ Predict.stdout (snd (Predict.main toy_predict "/app/ml-backend"
                            (inr (Some "root/cat/a.jpg")) (predict_start tree_fs)))
     = [Predict.Failure " Trained model file (uploads/model.pkl) not found." None].
Proof.
  assert (N : "root/cat/a.jpg" <> "") by discriminate.
  split; [exact N|]. split; [reflexivity|]. split; [reflexivity|].
  rewrite (proj1 (missing_model_is_reported_before_missing_encoder toy_predict
                    "/app/ml-backend" "root/cat/a.jpg" (predict_start tree_fs)
                    N eq_refl) eq_refl).
  reflexivity.
Defined.

(** X23 at a disk with both artifacts under [uploads/]. *)
Lemma prediction_needs_image_and_both_artifacts_witness :
  Predict.stdout (snd (Predict.main toy_predict "/app/ml-backend"
                         (inr (Some "root/cat/a.jpg")) (predict_start served_fs)))
  = ([] ++ [Predict.Prediction "cat"])%list
  /\ exists p model enc f z,
       @inr exn _ (Some "root/cat/a.jpg") = inr (Some p)
       /\ exists_ served_fs p = true
       /\ exists_ served_fs (Predict.model_path "/app/ml-backend") = true
       /\ exists_ served_fs (Predict.encoder_path "/app/ml-backend") = true
       /\ Predict.load_model toy_predict (Predict.model_path "/app/ml-backend") = inr model
       /\ Predict.load_encoder toy_predict (Predict.encoder_path "/app/ml-backend") = inr enc
       /\ Predict.open_image toy_predict p = inl f
       /\ Predict.predict toy_predict model f = inr z
       /\ Predict.inverse_transform toy_predict enc z = inr "cat".
Proof.
  split; [reflexivity|].
  apply (prediction_needs_image_and_both_artifacts toy_predict "/app/ml-backend"
           (inr (Some "root/cat/a.jpg")) (predict_start served_fs) "cat").
  reflexivity.
Defined.

(** X24 at a disk with both artifacts and a PIL that opens nothing. *)
Lemma unreadable_image_is_a_failed_prediction_witness :
  Predict.open_image blind_predict "root/cat/a.jpg" = inr "cannot identify image file"
  /\ Predict.stdout (snd (Predict.main blind_predict "/app/ml-backend"
                            (inr (Some "root/cat/a.jpg")) (predict_start served_fs)))
     = [Predict.Failure
          " Prediction failed: Image preprocessing failed: cannot identify image file"
          (Some "Traceback (most recent call last): ...")].
Proof.
  split; [reflexivity|].
  rewrite (unreadable_image_is_a_failed_prediction blind_predict "/app/ml-backend"
             "root/cat/a.jpg" (predict_start served_fs) tt tt
             "cannot identify image file").
  - reflexivity.
  - discriminate.
  - reflexivity.
  - reflexivity.
  - reflexivity.
  - reflexivity.
  - reflexivity.
  - reflexivity.
Defined.

(** X25 at a disk with both artifacts under [uploads/]. *)
Lemma prediction_is_the_decoded_class_witness :
  exists_ served_fs (Predict.model_path "/app/ml-backend") = true
  /\ exists_ served_fs (Predict.encoder_path "/app/ml-backend") = true
  /\ Predict.stdout (snd (Predict.main toy_predict "/app/ml-backend"
                            (inr (Some "root/cat/a.jpg")) (predict_start served_fs)))
     = [Predict.Prediction "cat"].
Proof.
  split; [reflexivity|]. split; [reflexivity|].
  rewrite (prediction_is_the_decoded_class toy_predict "/app/ml-backend"
             "root/cat/a.jpg" (predict_start served_fs) tt tt "root/cat/a.jpg" 0%Z "cat").
  - reflexivity.
  - discriminate.
  - reflexivity.
  - reflexivity.
  - reflexivity.
  - reflexivity.
  - reflexivity.
  - reflexivity.
  - reflexivity.
  - reflexivity.
Defined.

End MoreExamples.
